(** * goamis: the page-configuration store of [main.go]

  A shallow embedding of the storage side of [main.go]: the bolt bucket
  that holds the page configurations, the seed loader [initBoltDB] and the
  four gin handlers [listConfig], [getConfig], [deleteConfig] and
  [saveConfig].

  Go strings and byte slices are sequences of bytes; they are modelled by
  [string] (a list of 8-bit characters).  A byte slice that may be [nil]
  is an [option string].  A bolt bucket is a finite map from keys to
  values, and the database is a finite map from bucket names to buckets.
  A handler is a function from the database (and its request) to the new
  database and the response it writes. *)

From Stdlib Require Import ZArith Ascii String List Sorting.Sorted.
From stdpp Require Import base option list sorting strings gmap fin_maps.

Local Open Scope string_scope.
Local Open Scope Z_scope.

(** ** Go strings *)

(** [len(s)], an [int]. *)
Definition len (s : string) : Z := Z.of_nat (String.length s).

(** [len(b)] for a byte slice that may be nil. *)
Definition lenBytes (b : option string) : Z :=
match b with
| None => 0
| Some s => len s
end.

(** The double quote, which a string literal of this file cannot hold. *)
Definition dq : string := String (ascii_of_nat 34) EmptyString.

(** [q s] is [s] between double quotes. *)
Definition q (s : string) : string := dq +:+ s +:+ dq.

Module strings.

(** [strings.HasSuffix]:
    [len(s) >= len(suffix) && s[len(s)-len(suffix):] == suffix]. *)
Definition HasSuffix (s suffix : string) : bool :=
  (String.length suffix <=? String.length s)%nat
  && String.eqb
       (substring (String.length s - String.length suffix)
                  (String.length suffix) s)
       suffix.

(** [strings.TrimSuffix]: [s[:len(s)-len(suffix)]] when [s] ends with
    [suffix], and [s] otherwise. *)
Definition TrimSuffix (s suffix : string) : string :=
  if HasSuffix s suffix
  then substring 0 (String.length s - String.length suffix) s
  else s.

End strings.

Module filepath.

(** [os.IsPathSeparator] on Unix. *)
Definition IsPathSeparator (c : ascii) : bool := Ascii.eqb c "/"%char.

(** The backward scan of [filepath.Split] over [path]: whether [path]
    holds a separator, and the part of [path] after the last one (all of
    [path] when there is none). *)
Fixpoint splitScan (path : string) : bool * string :=
  match path with
  | EmptyString => (false, EmptyString)
  | String c rest =>
      let '(found, file) := splitScan rest in
      if found then (true, file)
      else if IsPathSeparator c then (true, rest)
      else (false, String c rest)
  end.

(** [filepath.Split(path)]: the directory, with its final separator, and
    the file name, [path[:i+1], path[i+1:]] for the last separator [i]. *)
Definition Split (path : string) : string * string :=
  let file := snd (splitScan path) in
  (substring 0 (String.length path - String.length file) path, file).

(** The backward scan of [filepath.Ext] over [path]: [None] when the scan
    runs through all of [path] without meeting a dot or a separator,
    [Some e] when it stops inside [path] with the result [e] (empty when a
    separator comes first). *)
Fixpoint extScan (path : string) : option string :=
  match path with
  | EmptyString => None
  | String c rest =>
      match extScan rest with
      | Some e => Some e
      | None =>
          if IsPathSeparator c then Some EmptyString
          else if Ascii.eqb c "."%char then Some (String c rest)
          else None
      end
  end.

(** [filepath.Ext(path)]: the suffix from the last dot of the last
    element of [path], empty when there is no dot. *)
Definition Ext (path : string) : string :=
  match extScan path with
  | Some e => e
  | None => EmptyString
  end.

End filepath.

(** ** The bolt database *)

Module bolt.

(** The errors the calls of [main.go] can meet on their arguments. *)
Inductive error : Type :=
| ErrBucketNameRequired
| ErrKeyRequired
| ErrKeyTooLarge
| ErrValueTooLarge.

(** [err.Error()]. *)
Definition Error (e : error) : string :=
  match e with
  | ErrBucketNameRequired => "bucket name required"
  | ErrKeyRequired => "key required"
  | ErrKeyTooLarge => "key too large"
  | ErrValueTooLarge => "value too large"
  end.

Definition MaxKeySize : Z := 32768.
Definition MaxValueSize : Z := Z.shiftl 1 31 - 2.

(** A bucket: its keys and their values. *)
Abbreviation Bucket := (gmap string string).

(** The database: its top-level buckets, by name. *)
Abbreviation DB := (gmap string (gmap string string)).

(** What the function of a transaction comes to: it returns a value and no
    error, it returns an error, or it panics. *)
Inductive result (A : Type) : Type :=
| Returned (a : A)
| Failed (e : error)
| Panic.
Arguments Returned {A} a.
Arguments Failed {A} e.
Arguments Panic {A}.

(** [db.View(fn)]: [fn] reads the database. *)
Definition View {A : Type} (db : DB) (fn : DB → result A) : result A := fn db.

(** [db.Update(fn)]: what [fn] wrote is committed when it returns no
    error, and rolled back when it returns one or panics. *)
Definition Update (db : DB) (fn : DB → result DB) : DB * result unit :=
  match fn db with
  | Returned tx => (tx, Returned tt)
  | Failed e => (db, Failed e)
  | Panic => (db, Panic)
  end.

(** [db.Batch(fn)] with a single caller: an [Update]. *)
Definition Batch (db : DB) (fn : DB → result DB) : DB * result unit :=
  Update db fn.

(** [tx.Bucket(name)]: the bucket, [nil] when there is none. *)
Definition TxBucket (tx : DB) (name : string) : option Bucket := tx !! name.

(** [tx.CreateBucketIfNotExists(name)] in a writable transaction: the
    bucket of that name, created empty when it is missing. *)
Definition CreateBucketIfNotExists (tx : DB) (name : string)
    : error + DB * Bucket :=
  if len name =? 0 then inl ErrBucketNameRequired
  else match tx !! name with
       | Some b => inr (tx, b)
       | None => inr (<[name := ∅]> tx, ∅)
       end.

(** [bucket.Get(key)]: the value, [nil] when the key is absent. *)
Definition Get (b : Bucket) (key : string) : option string := b !! key.

(** [bucket.Put(key, value)]: the key is required and key and value have
    a maximal size; otherwise the value replaces any earlier one. *)
Definition Put (b : Bucket) (key value : string) : error + Bucket :=
  if len key =? 0 then inl ErrKeyRequired
  else if MaxKeySize <? len key then inl ErrKeyTooLarge
  else if MaxValueSize <? len value then inl ErrValueTooLarge
  else inr (<[key := value]> b).

(** [bucket.Delete(key)]: removes the key; nothing happens, and no error
    is returned, when the key is absent. *)
Definition Delete (b : Bucket) (key : string) : error + Bucket :=
  inr (delete key b).

(** The order of the keys in a bucket: [bytes.Compare(k1, k2) <= 0], on
    the keys of two entries. *)
Definition key_le (e1 e2 : string * string) : Prop :=
  String.leb (fst e1) (fst e2) = true.

#[global] Instance key_le_dec : RelDecision key_le.
Proof. intros e1 e2. unfold key_le. apply _. Defined.

(** The entries of a bucket as a cursor meets them, in the order of
    their keys. *)
Definition entries (b : Bucket) : list (string * string) :=
  merge_sort key_le (map_to_list b).

(** [bucket.ForEach(fn)] for a function [fn] that returns no error: [fn]
    is run on every entry, in the order of the keys. *)
Definition ForEach {St : Type} (b : Bucket) (fn : string → string → St → St)
    (s : St) : St :=
  foldl (fun acc e => fn (fst e) (snd e) acc) s (entries b).

End bolt.

(** ** The embedded file system *)

Module fs.

(** One call of the function given to [fs.WalkDir]: the path, whether it
    is a directory, and what [systemStatic.ReadFile(path)] returns for it
    ([None] when the read fails). *)
Record DirEntry : Type := {
  path : string;
  isDir : bool;
  contents : option string
}.

(** [fs.WalkDir(fsys, root, fn)] for a function [fn] that never returns
    [fs.SkipDir]: [fn] is called on the root and on everything below it,
    in lexical order, here the list [visits]; the walk stops at the first
    error [fn] returns, and returns it. *)
Fixpoint WalkDir {St : Type} (visits : list DirEntry)
    (fn : DirEntry → St → St * option string) (s : St)
    : St * option string :=
  match visits with
  | [] => (s, None)
  | d :: rest =>
      match fn d s with
      | (s', None) => WalkDir rest fn s'
      | (s', Some err) => (s', Some err)
      end
  end.

End fs.

(** ** Struct validation and gin's binding *)

Module validator.

(** A field of a struct: its name, its tag as the list of its
    [key:"value"] pairs, and its value, a string. *)
Record StructField : Type := {
  FieldName : string;
  Tag : list (string * string);
  Value : string
}.

(** [reflect.StructTag.Get(key)]: the value of [key], empty when the tag
    has no such key. *)
Fixpoint tagGet (tag : list (string * string)) (key : string) : string :=
  match tag with
  | [] => EmptyString
  | (k, v) :: rest => if String.eqb k key then v else tagGet rest key
  end.

(** [strings.Split(s, ",")]. *)
Fixpoint splitComma (s : string) : list string :=
  match s with
  | EmptyString => [EmptyString]
  | String c rest =>
      if Ascii.eqb c ","%char then EmptyString :: splitComma rest
      else match splitComma rest with
           | [] => [String c EmptyString]
           | w :: ws => String c w :: ws
           end
  end.

Section Validate.

(** [encoding/json.Valid], which the rule [json] calls. *)
Variable jsonValid : string → bool.

(** The two rules the tags of [main.go] name: [required] holds of a
    string that is not empty, [json] of a string that is valid JSON. *)
Definition holds (rule value : string) : bool :=
  if String.eqb rule "required" then negb (String.eqb value EmptyString)
  else if String.eqb rule "json" then jsonValid value
  else true.

(** The first rule of a field that fails, if any. *)
Definition failedRule (rules : list string) (value : string) : option string :=
  List.find (fun rule => negb (holds rule value)) rules.

(** [validate.Struct(obj)] for a validator that reads the rules of a field
    under the key [tagName] of its tag: the fields that fail, each with the
    rule it fails.  A field with no rules under that key is not checked. *)
Definition Struct (tagName : string) (fields : list StructField)
    : list (string * string) :=
  omap (fun f =>
          let rules := tagGet (Tag f) tagName in
          if String.eqb rules EmptyString || String.eqb rules "-" then None
          else (fun rule => (FieldName f, rule)) <$>
                 failedRule (splitComma rules) (Value f))
       fields.

End Validate.

End validator.

Module gin.

(** The key under which gin's default validator reads the rules of a
    field: it is set up with [SetTagName("binding")]. *)
Definition tagName : string := "binding".

(** The errors of [c.ShouldBindJSON]: the body does not decode into the
    struct, or fields fail their rules. *)
Inductive bindError : Type :=
| DecodeError (msg : string)
| ValidationErrors (failed : list (string * string)).

(** The line of one failed field in [err.Error()]. *)
Definition fieldError (structName : string) (e : string * string) : string :=
  "Key: '" +:+ structName +:+ "." +:+ fst e
  +:+ "' Error:Field validation for '" +:+ fst e
  +:+ "' failed on the '" +:+ snd e +:+ "' tag".

(** [err.Error()]. *)
Definition Error (structName : string) (err : bindError) : string :=
  match err with
  | DecodeError msg => msg
  | ValidationErrors failed =>
      String.concat (String (ascii_of_nat 10) EmptyString)
                    (fieldError structName <$> failed)
  end.

(** [c.ShouldBindJSON(obj)], on what decoding the body of the request
    into the struct gives ([inl] for a body that does not decode): the
    decoded struct is validated by the default validator. *)
Definition ShouldBindJSON {A : Type} (jsonValid : string → bool)
    (fields : A → list validator.StructField) (decoded : string + A)
    : bindError + A :=
  match decoded with
  | inl msg => inl (DecodeError msg)
  | inr obj =>
      match validator.Struct jsonValid tagName (fields obj) with
      | [] => inr obj
      | failed => inl (ValidationErrors failed)
      end
  end.

End gin.

(** ** [main.go] *)

Definition defaultBucket : string := "page".

Definition page404Data : string :=
  "{" +:+ q "type" +:+ ":" +:+ q "page" +:+ ","
  +:+ q "title" +:+ ":" +:+ q "404" +:+ ","
  +:+ q "body" +:+ ":[{" +:+ q "type" +:+ ":" +:+ q "markdown" +:+ ","
  +:+ q "value" +:+ ":"
  +:+ q "# 🚫 Oops,  找不到对应的页面配置\n[👉 点击我返回页面列表](/)"
  +:+ "}]," +:+ q "regions" +:+ ":[" +:+ q "body" +:+ "]}".

Record pageItem : Type := {
  Name : string;
  Config : string
}.

(** The fields of [pageItem] with their tags, as the struct declares
    them. *)
Definition pageItem_fields (p : pageItem) : list validator.StructField :=
  [ {| validator.FieldName := "Name";
       validator.Tag := [("json", "name"); ("validate", "required")];
       validator.Value := Name p |};
    {| validator.FieldName := "Config";
       validator.Tag := [("json", "config"); ("validate", "required,json")];
       validator.Value := Config p |} ].

(** The [data] of the list: [items] and [total]. *)
Record listData : Type := {
  items : list pageItem;
  total : Z
}.

Record basicResp : Type := {
  Status : Z;
  Msg : string;
  Data : option listData
}.

(** What a handler writes: a JSON object ([c.JSON],
    [c.AbortWithStatusJSON]), raw bytes ([c.Data]), or nothing of its own
    when it panics. *)
Inductive response : Type :=
| RespJSON (code : Z) (obj : basicResp)
| RespData (code : Z) (contentType : string) (data : string)
| RespPanic.

Definition StatusOK : Z := 200.

(** The function [initBoltDB] gives to [fs.WalkDir]. *)
Definition initBoltDB_walk (d : fs.DirEntry) (bucket : bolt.Bucket)
    : bolt.Bucket * option string :=
  if fs.isDir d then (bucket, None)
  else
    let '(_, filename) := filepath.Split (fs.path d) in
    let fileExt := filepath.Ext filename in
    if negb (String.eqb fileExt ".json") then (bucket, None)
    else
      match fs.contents d with
      | None => (bucket, None)
      | Some pageData =>
          match bolt.Put bucket (strings.TrimSuffix filename fileExt) pageData with
          | inl err => (bucket, None)
          | inr bucket' => (bucket', None)
          end
      end.

(** [initBoltDB]: [file] is what [amis.db] holds when it is opened; the
    result is what it holds after the batch. *)
Definition initBoltDB (systemStatic : list fs.DirEntry) (file : bolt.DB)
    : bolt.DB :=
  fst (bolt.Batch file (fun tx =>
    match bolt.CreateBucketIfNotExists tx defaultBucket with
    | inl err => bolt.Failed err
    | inr (tx, bucket) =>
        let '(bucket, _) := fs.WalkDir systemStatic initBoltDB_walk bucket in
        bolt.Returned (<[defaultBucket := bucket]> tx)
    end)).

Definition listConfig (boltDB : bolt.DB) : response :=
  match
    bolt.View boltDB (fun tx =>
      match bolt.TxBucket tx defaultBucket with
      | None => bolt.Panic
      | Some bucket =>
          bolt.Returned
            (bolt.ForEach bucket
               (fun k v pages => (pages ++ [ {| Name := k; Config := v |} ])%list)
               [])
      end)
  with
  | bolt.Failed err =>
      RespJSON StatusOK {| Status := -1; Msg := bolt.Error err; Data := None |}
  | bolt.Panic => RespPanic
  | bolt.Returned pages =>
      RespJSON StatusOK
        {| Status := 0; Msg := EmptyString;
           Data := Some {| items := pages;
                           total := Z.of_nat (length pages) |} |}
  end.

Definition getConfig (boltDB : bolt.DB) (name : string) : response :=
  if String.eqb name EmptyString then
    RespJSON StatusOK {| Status := -1; Msg := "name is empty"; Data := None |}
  else
    match
      bolt.View boltDB (fun tx =>
        match bolt.TxBucket tx defaultBucket with
        | None => bolt.Panic
        | Some bucket => bolt.Returned (bolt.Get bucket name)
        end)
    with
    | bolt.Panic => RespPanic
    | bolt.Failed _ => RespData StatusOK "application/json" page404Data
    | bolt.Returned pageData =>
        let pageData :=
          if lenBytes pageData =? 0 then Some page404Data else pageData in
        RespData StatusOK "application/json" (default EmptyString pageData)
    end.

Definition deleteConfig (boltDB : bolt.DB) (name : string)
    : bolt.DB * response :=
  if String.eqb name EmptyString then
    (boltDB,
     RespJSON StatusOK {| Status := -1; Msg := "name is empty"; Data := None |})
  else
    match
      bolt.Update boltDB (fun tx =>
        match bolt.TxBucket tx defaultBucket with
        | None => bolt.Panic
        | Some bucket =>
            match bolt.Delete bucket name with
            | inl err => bolt.Failed err
            | inr bucket' => bolt.Returned (<[defaultBucket := bucket']> tx)
            end
        end)
    with
    | (db, bolt.Failed err) =>
        (db, RespJSON StatusOK
               {| Status := -1; Msg := bolt.Error err; Data := None |})
    | (db, bolt.Panic) => (db, RespPanic)
    | (db, bolt.Returned _) =>
        (db, RespJSON StatusOK
               {| Status := 0; Msg := "delete page config successfully";
                  Data := None |})
    end.

(** [saveConfig], on what decoding the body of the request into a
    [pageItem] gives. *)
Definition saveConfig (jsonValid : string → bool) (boltDB : bolt.DB)
    (decoded : string + pageItem) : bolt.DB * response :=
  match gin.ShouldBindJSON jsonValid pageItem_fields decoded with
  | inl err =>
      (boltDB,
       RespJSON StatusOK
         {| Status := -1; Msg := gin.Error "pageItem" err; Data := None |})
  | inr req =>
      match
        bolt.Update boltDB (fun tx =>
          match bolt.TxBucket tx defaultBucket with
          | None => bolt.Panic
          | Some bucket =>
              match bolt.Put bucket (Name req) (Config req) with
              | inl err => bolt.Failed err
              | inr bucket' => bolt.Returned (<[defaultBucket := bucket']> tx)
              end
          end)
      with
      | (db, bolt.Failed err) =>
          (db, RespJSON StatusOK
                 {| Status := -1; Msg := bolt.Error err; Data := None |})
      | (db, bolt.Panic) => (db, RespPanic)
      | (db, bolt.Returned _) =>
          (db, RespJSON StatusOK
                 {| Status := 0; Msg := "save page config successfully";
                    Data := None |})
      end
  end.

(** ** Vocabulary of the statements *)

(** The bucket of the page configurations, empty when the database has
    none. *)
Definition pageBucket (db : bolt.DB) : bolt.Bucket :=
  default ∅ (db !! defaultBucket).

(** The response of [getConfig] that carries the document [d]. *)
Definition served (d : string) : response :=
  RespData StatusOK "application/json" d.

(** The response of a handler that reports the failure [msg]. *)
Definition failure (msg : string) : response :=
  RespJSON StatusOK {| Status := -1; Msg := msg; Data := None |}.

(** The response of a handler that reports success with [msg]. *)
Definition success (msg : string) : response :=
  RespJSON StatusOK {| Status := 0; Msg := msg; Data := None |}.

(** The request whose body decodes into the name [n] and the document
    [d]. *)
Definition request (n d : string) : string + pageItem :=
  inr {| Name := n; Config := d |}.

(** A name and a document the bucket takes: the name is not empty and
    both are within the sizes of bolt. *)
Definition storable (n d : string) : Prop :=
  n ≠ EmptyString ∧ len n <= bolt.MaxKeySize ∧ len d <= bolt.MaxValueSize.

(** What [get] observes of a bucket at a name that is not empty. *)
Definition observed (b : bolt.Bucket) (name : string) : string :=
  match b !! name with
  | Some d => if len d =? 0 then page404Data else d
  | None => page404Data
  end.

(** The item [listConfig] makes of an entry of the bucket. *)
Definition toItem (e : string * string) : pageItem :=
  {| Name := fst e; Config := snd e |}.

(** The order of the items of a list: by name, in the order of the
    bytes. *)
Definition name_le (p1 p2 : pageItem) : Prop :=
  String.leb (Name p1) (Name p2) = true.

(** The requests [reqs] saved one after the other. *)
Definition saveAll (jsonValid : string → bool) (db : bolt.DB)
    (reqs : list pageItem) : bolt.DB :=
  foldl (fun db p => fst (saveConfig jsonValid db (inr p))) db reqs.

(** The response of [listConfig] that carries [pages]. *)
Definition listed (pages : list pageItem) : response :=
  RespJSON StatusOK
    {| Status := 0; Msg := EmptyString;
       Data := Some {| items := pages; total := Z.of_nat (length pages) |} |}.

(** A database that has the bucket, empty, and one that holds a page. *)
Definition emptyStore : bolt.DB := {[ defaultBucket := ∅ ]}.
Definition homeStore : bolt.DB :=
  {[ defaultBucket := {[ "home" := "{}" ]} ]}.

(** The name of the file of a visit: the last element of its path. *)
Definition filename (d : fs.DirEntry) : string :=
  snd (filepath.Split (fs.path d)).

(** The seed pair of a visit, in the words of the specification: a file
    whose name has the suffix [.json] and whose read succeeds gives the
    pair of its name without the suffix and of its bytes; anything else
    gives none. *)
Definition seedPair (d : fs.DirEntry) : option (string * string) :=
  if fs.isDir d then None
  else if strings.HasSuffix (filename d) ".json" then
    match fs.contents d with
    | Some data => Some (strings.TrimSuffix (filename d) ".json", data)
    | None => None
    end
  else None.

(** The seed pairs of the bundle, in the order of the walk. *)
Definition seeds (systemStatic : list fs.DirEntry) : list (string * string) :=
  omap seedPair systemStatic.

(** The write of one seed pair: the pair replaces what the bucket has
    under its name, unless the bucket refuses it. *)
Definition upsert (b : bolt.Bucket) (e : string * string) : bolt.Bucket :=
  match bolt.Put b (fst e) (snd e) with
  | inr b' => b'
  | inl _ => b
  end.

(** A directory and a file of the bundle, and a file whose read fails. *)
Definition dir (p : string) : fs.DirEntry :=
  {| fs.path := p; fs.isDir := true; fs.contents := None |}.
Definition file (p data : string) : fs.DirEntry :=
  {| fs.path := p; fs.isDir := false; fs.contents := Some data |}.
Definition unreadable (p : string) : fs.DirEntry :=
  {| fs.path := p; fs.isDir := false; fs.contents := None |}.

(** Whether the name of the file of a visit has the suffix [.json]. *)
Definition hasDocumentSuffix (d : fs.DirEntry) : bool :=
  strings.HasSuffix (filename d) ".json".

(** Bundles: a page and a template; two pages of one name in two
    directories; a page of no bytes; a page whose read fails between two
    pages. *)
Definition pageAndTemplate : list fs.DirEntry :=
  [ dir "static"; file "static/amis.tmpl" "<html>";
    file "static/index.json" "{}" ].
Definition twoHomes : list fs.DirEntry :=
  [ dir "static"; dir "static/a"; file "static/a/home.json" "[1]";
    dir "static/b"; file "static/b/home.json" "[2]" ].
Definition blankPage : list fs.DirEntry :=
  [ dir "static"; file "static/blank.json" EmptyString ].
Definition brokenPage : list fs.DirEntry :=
  [ dir "static"; file "static/a.json" "[1]"; unreadable "static/b.json";
    file "static/c.json" "[3]" ].

(** The databases the server can have: the one [initBoltDB] leaves,
    whatever the file held, and those the handlers that write make of
    one. *)
Inductive reachable (jsonValid : string → bool) : bolt.DB → Prop :=
| reachable_init (systemStatic : list fs.DirEntry) (file : bolt.DB) :
    reachable jsonValid (initBoltDB systemStatic file)
| reachable_save (db : bolt.DB) (decoded : string + pageItem) :
    reachable jsonValid db →
    reachable jsonValid (fst (saveConfig jsonValid db decoded))
| reachable_delete (db : bolt.DB) (name : string) :
    reachable jsonValid db →
    reachable jsonValid (fst (deleteConfig db name)).

(** What [renderPage] gives to [c.HTML]: the status, the name of the
    template and the values of [gin.H], by key. *)
Record htmlPage : Type := {
  htmlCode : Z;
  htmlName : string;
  htmlObj : gmap string string
}.

Definition renderPage (name : string) : htmlPage :=
  let name := if String.eqb name EmptyString then "404" else name in
  {| htmlCode := StatusOK;
     htmlName := "amis.tmpl";
     htmlObj := {[ "pageTitle" := name;
                   "pageSchemaApi" := "GET:/config/get/" +:+ name;
                   "getConfigAddr" := "/config/get/" +:+ name ]} |}.

(** The strict order of the items of a list: by name, in the order of
    the bytes. *)
Definition name_lt (p1 p2 : pageItem) : Prop :=
  String.ltb (Name p1) (Name p2) = true.

(** A name of [n] bytes. *)
Definition nameOfLength (n : Z) : string :=
  string_of_list_ascii (repeat "a"%char (Z.to_nat n)).

(** Whether a string holds a path separator. *)
Fixpoint hasSeparator (s : string) : bool :=
  match s with
  | EmptyString => false
  | String c rest => filepath.IsPathSeparator c || hasSeparator rest
  end.

(** ** Strings *)

(** The path functions on the paths of a bundle. *)
Example Split_nested :
  filepath.Split "static/a/home.json" = ("static/a/", "home.json").
Proof. reflexivity. Qed.

Example Split_no_separator :
  filepath.Split "home.json" = (EmptyString, "home.json").
Proof. reflexivity. Qed.

Example Ext_last_dot : filepath.Ext "pages.v2.json" = ".json".
Proof. reflexivity. Qed.

Example Ext_dot_in_directory : filepath.Ext "static.d/home" = EmptyString.
Proof. reflexivity. Qed.

Example Ext_template : filepath.Ext "amis.tmpl" = ".tmpl".
Proof. reflexivity. Qed.

Example TrimSuffix_json : strings.TrimSuffix "home.json" ".json" = "home".
Proof. reflexivity. Qed.

Example page404Data_len : len page404Data = 171.
Proof. reflexivity. Qed.

Lemma len_zero (s : string) : (len s =? 0) = true ↔ s = EmptyString.
Proof.
  unfold len. destruct s as [|c s]; simpl.
  - split; reflexivity.
  - split; discriminate.
Qed.

Lemma len_nonzero (s : string) : s ≠ EmptyString → (len s =? 0) = false.
Proof.
  intros Hs. destruct (len s =? 0) eqn:E; [|reflexivity].
  apply len_zero in E. contradiction.
Qed.

Lemma eqb_empty_false (s : string) :
  s ≠ EmptyString → String.eqb s EmptyString = false.
Proof. intros Hs. by apply String.eqb_neq. Qed.

(** ** The bucket *)

Lemma Put_storable (b : bolt.Bucket) (n d : string) :
  storable n d → bolt.Put b n d = inr (<[n := d]> b).
Proof.
  intros (Hn & Hk & Hv). unfold bolt.Put.
  rewrite (len_nonzero _ Hn).
  destruct (bolt.MaxKeySize <? len n) eqn:E1; [apply Z.ltb_lt in E1; lia|].
  destruct (bolt.MaxValueSize <? len d) eqn:E2; [apply Z.ltb_lt in E2; lia|].
  reflexivity.
Qed.

Lemma Put_inr (b b' : bolt.Bucket) (n d : string) :
  bolt.Put b n d = inr b' → storable n d ∧ b' = <[n := d]> b.
Proof.
  unfold bolt.Put, storable.
  destruct (len n =? 0) eqn:E0; [discriminate|].
  destruct (bolt.MaxKeySize <? len n) eqn:E1; [discriminate|].
  destruct (bolt.MaxValueSize <? len d) eqn:E2; [discriminate|].
  intros [= <-]. apply Z.ltb_ge in E1, E2.
  repeat split; try assumption.
  intros ->. discriminate.
Qed.

(** ** The handlers on a database that has the bucket *)

Lemma ShouldBindJSON_pageItem (jsonValid : string → bool) (p : pageItem) :
  gin.ShouldBindJSON jsonValid pageItem_fields (inr p) = inr p.
Proof. reflexivity. Qed.

Lemma getConfig_observed (db : bolt.DB) (b : bolt.Bucket) (name : string) :
  db !! defaultBucket = Some b → name ≠ EmptyString →
  getConfig db name = served (observed b name).
Proof.
  intros Hb Hn. unfold getConfig, bolt.View, bolt.TxBucket, bolt.Get, observed.
  rewrite (eqb_empty_false _ Hn), Hb.
  destruct (b !! name) as [d|]; simpl; [|reflexivity].
  destruct (len d =? 0); reflexivity.
Qed.

Lemma getConfig_empty_name (db : bolt.DB) :
  getConfig db EmptyString = failure "name is empty".
Proof. reflexivity. Qed.

Lemma getConfig_no_bucket (db : bolt.DB) (name : string) :
  db !! defaultBucket = None → name ≠ EmptyString →
  getConfig db name = RespPanic.
Proof.
  intros Hb Hn. unfold getConfig, bolt.View, bolt.TxBucket.
  by rewrite (eqb_empty_false _ Hn), Hb.
Qed.

Lemma saveConfig_storable (jsonValid : string → bool) (db : bolt.DB)
    (b : bolt.Bucket) (n d : string) :
  db !! defaultBucket = Some b → storable n d →
  saveConfig jsonValid db (request n d)
  = (<[defaultBucket := <[n := d]> b]> db,
     success "save page config successfully").
Proof.
  intros Hb Hs. unfold saveConfig, request.
  rewrite ShouldBindJSON_pageItem. unfold bolt.Update, bolt.TxBucket.
  rewrite Hb. simpl. by rewrite (Put_storable _ _ _ Hs).
Qed.

Lemma saveConfig_state (jsonValid : string → bool) (db : bolt.DB)
    (n d : string) :
  fst (saveConfig jsonValid db (request n d)) = db
  ∨ ∃ b, db !! defaultBucket = Some b ∧ storable n d
         ∧ fst (saveConfig jsonValid db (request n d))
           = <[defaultBucket := <[n := d]> b]> db.
Proof.
  unfold saveConfig, request.
  rewrite ShouldBindJSON_pageItem. unfold bolt.Update, bolt.TxBucket.
  destruct (db !! defaultBucket) as [b|] eqn:Hb; [|by left]. simpl.
  destruct (bolt.Put b n d) as [e|b'] eqn:HP; [by left|].
  apply Put_inr in HP as [Hs ->]. right. by exists b.
Qed.

Lemma deleteConfig_bucket (db : bolt.DB) (b : bolt.Bucket) (n : string) :
  db !! defaultBucket = Some b → n ≠ EmptyString →
  deleteConfig db n
  = (<[defaultBucket := delete n b]> db,
     success "delete page config successfully").
Proof.
  intros Hb Hn. unfold deleteConfig, bolt.Update, bolt.TxBucket, bolt.Delete.
  by rewrite (eqb_empty_false _ Hn), Hb.
Qed.

Lemma deleteConfig_state (db : bolt.DB) (n : string) :
  fst (deleteConfig db n) = db
  ∨ ∃ b, db !! defaultBucket = Some b ∧ n ≠ EmptyString
         ∧ fst (deleteConfig db n) = <[defaultBucket := delete n b]> db.
Proof.
  destruct (String.eqb_spec n EmptyString) as [->|Hn]; [by left|].
  destruct (db !! defaultBucket) as [b|] eqn:Hb.
  - right. exists b. by rewrite (deleteConfig_bucket _ _ _ Hb Hn).
  - left. unfold deleteConfig, bolt.Update, bolt.TxBucket.
    by rewrite (eqb_empty_false _ Hn), Hb.
Qed.

(** [getConfig] at [m] sees only the bucket's entry at [m]. *)
Lemma getConfig_local (db db' : bolt.DB) (m : string) :
  (∀ b, db !! defaultBucket = Some b →
        ∃ b', db' !! defaultBucket = Some b' ∧ b' !! m = b !! m) →
  (db !! defaultBucket = None → db' !! defaultBucket = None) →
  getConfig db' m = getConfig db m.
Proof.
  intros HS HN.
  destruct (String.eqb_spec m EmptyString) as [->|Hm]; [reflexivity|].
  destruct (db !! defaultBucket) as [b|] eqn:Hb.
  - destruct (HS b eq_refl) as (b' & Hb' & Hm').
    rewrite (getConfig_observed _ _ _ Hb' Hm), (getConfig_observed _ _ _ Hb Hm).
    unfold observed. by rewrite Hm'.
  - rewrite (getConfig_no_bucket _ _ Hb Hm).
    by rewrite (getConfig_no_bucket _ _ (HN eq_refl) Hm).
Qed.

(** ** Round trip, fallback, delete and frame *)

(** C1: on a database that has the bucket, for every name that is not
    empty and within the key size of bolt and every document that is not
    empty and within the value size, [save(n, d)] succeeds and [get(n)]
    then returns exactly the bytes [d]. *)
Theorem save_get_roundtrip (jsonValid : string → bool) (db : bolt.DB)
    (b : bolt.Bucket) (n d : string) :
  db !! defaultBucket = Some b →
  n ≠ EmptyString → len n <= bolt.MaxKeySize →
  d ≠ EmptyString → len d <= bolt.MaxValueSize →
  snd (saveConfig jsonValid db (request n d))
  = success "save page config successfully"
  ∧ getConfig (fst (saveConfig jsonValid db (request n d))) n = served d.
Proof.
  intros Hb Hn Hk Hd Hv.
  rewrite (saveConfig_storable jsonValid db b n d Hb); [|by repeat split].
  split; [reflexivity|]. simpl.
  rewrite (getConfig_observed _ (<[n := d]> b) n); [|apply lookup_insert_eq|done].
  unfold observed. rewrite lookup_insert_eq. by rewrite (len_nonzero _ Hd).
Qed.

Lemma save_get_roundtrip_witness :
  snd (saveConfig (fun _ => true) homeStore (request "home" "[1,2]"))
  = success "save page config successfully"
  ∧ getConfig
      (fst (saveConfig (fun _ => true) homeStore (request "home" "[1,2]")))
      "home"
    = served "[1,2]".
Proof.
  apply (save_get_roundtrip (fun _ => true) homeStore {[ "home" := "{}" ]}).
  - reflexivity.
  - discriminate.
  - vm_compute. discriminate.
  - discriminate.
  - vm_compute. discriminate.
Defined.

(** C2, as the code has it: [get] of the empty name reports the failure
    [name is empty]; on a database that has the bucket, [get] of a name
    that is not empty and has no entry returns the fixed fallback
    document. *)
Theorem get_fallback_on_miss (db : bolt.DB) (name : string) :
  (name = EmptyString → getConfig db name = failure "name is empty")
  ∧ (∀ b, db !! defaultBucket = Some b → name ≠ EmptyString →
          b !! name = None → getConfig db name = served page404Data).
Proof.
  split.
  - intros ->. apply getConfig_empty_name.
  - intros b Hb Hn Hm. rewrite (getConfig_observed _ _ _ Hb Hn).
    unfold observed. by rewrite Hm.
Qed.

Lemma get_fallback_on_miss_witness :
  getConfig homeStore EmptyString = failure "name is empty"
  ∧ getConfig homeStore "nonexistent" = served page404Data.
Proof.
  split.
  - apply (proj1 (get_fallback_on_miss homeStore EmptyString)). reflexivity.
  - apply (proj2 (get_fallback_on_miss homeStore "nonexistent")
             {[ "home" := "{}" ]}).
    + reflexivity.
    + discriminate.
    + reflexivity.
Defined.

(** C2 as stated fails: [get] of the empty name returns the failure
    response and not the fallback document. *)
Lemma get_empty_name_counterexample :
  getConfig homeStore EmptyString = failure "name is empty"
  ∧ getConfig homeStore EmptyString ≠ served page404Data.
Proof. split; [reflexivity|discriminate]. Qed.

(** C9: [get] of a name whose stored value is the empty byte string
    returns the fallback document, as for a name that has no entry. *)
Theorem get_empty_value_is_fallback (db : bolt.DB) (b : bolt.Bucket)
    (name : string) :
  db !! defaultBucket = Some b → name ≠ EmptyString →
  b !! name = Some EmptyString →
  getConfig db name = served page404Data
  ∧ getConfig db name = getConfig (<[defaultBucket := delete name b]> db) name.
Proof.
  intros Hb Hn Hm.
  rewrite (getConfig_observed _ _ _ Hb Hn).
  rewrite (getConfig_observed _ (delete name b) name);
    [|apply lookup_insert_eq|done].
  unfold observed. rewrite Hm, lookup_delete_eq. by split.
Qed.

Lemma get_empty_value_is_fallback_witness :
  getConfig {[ defaultBucket := {[ "blank" := EmptyString ]} ]} "blank"
  = served page404Data
  ∧ getConfig {[ defaultBucket := {[ "blank" := EmptyString ]} ]} "blank"
    = getConfig
        (<[defaultBucket := delete "blank" {[ "blank" := EmptyString ]}]>
           {[ defaultBucket := {[ "blank" := EmptyString ]} ]})
        "blank".
Proof.
  apply (get_empty_value_is_fallback
           {[ defaultBucket := {[ "blank" := EmptyString ]} ]}
           {[ "blank" := EmptyString ]} "blank").
  - reflexivity.
  - discriminate.
  - reflexivity.
Defined.

(** C5: on a database that has the bucket, [delete] of a name that is not
    empty and has no entry succeeds and leaves the database as it was; and
    on every database, for every name, a second [delete] right after the
    first leaves the database the first one left and gives the same
    response. *)
Theorem delete_idempotent (db : bolt.DB) (n : string) :
  (∀ b, db !! defaultBucket = Some b → n ≠ EmptyString → b !! n = None →
        deleteConfig db n = (db, success "delete page config successfully"))
  ∧ deleteConfig (fst (deleteConfig db n)) n
    = deleteConfig db n.
Proof.
  split.
  - intros b Hb Hn Hm. rewrite (deleteConfig_bucket _ _ _ Hb Hn).
    by rewrite (delete_id _ _ Hm), (insert_id _ _ _ Hb).
  - destruct (String.eqb_spec n EmptyString) as [->|Hn]; [reflexivity|].
    destruct (db !! defaultBucket) as [b|] eqn:Hb.
    + rewrite (deleteConfig_bucket _ _ _ Hb Hn). simpl.
      rewrite (deleteConfig_bucket _ (delete n b) n);
        [|apply lookup_insert_eq|done].
      by rewrite insert_insert_eq, delete_delete_eq.
    + assert (deleteConfig db n = (db, RespPanic)) as ->.
      { unfold deleteConfig, bolt.Update, bolt.TxBucket.
        by rewrite (eqb_empty_false _ Hn), Hb. }
      simpl. unfold deleteConfig, bolt.Update, bolt.TxBucket.
      by rewrite (eqb_empty_false _ Hn), Hb.
Qed.

Lemma delete_idempotent_witness :
  deleteConfig homeStore "gone"
  = (homeStore, success "delete page config successfully")
  ∧ deleteConfig (fst (deleteConfig homeStore "home")) "home"
    = deleteConfig homeStore "home".
Proof.
  split.
  - apply (proj1 (delete_idempotent homeStore "gone") {[ "home" := "{}" ]}).
    + reflexivity.
    + discriminate.
    + reflexivity.
  - apply (proj2 (delete_idempotent homeStore "home")).
Defined.

(** C10: for every [save(n, d)] and every [delete(n)], successful or not,
    and every name [m] other than [n], [get(m)] returns after the
    operation what it returned before it. *)
Theorem save_delete_frame (jsonValid : string → bool) (db : bolt.DB)
    (n m : string) :
  n ≠ m →
  (∀ d, getConfig (fst (saveConfig jsonValid db (request n d))) m
        = getConfig db m)
  ∧ getConfig (fst (deleteConfig db n)) m = getConfig db m.
Proof.
  intros Hnm. split.
  - intros d.
    destruct (saveConfig_state jsonValid db n d) as [->|(b & Hb & _ & ->)];
      [reflexivity|].
    apply getConfig_local.
    + intros b0 Hb0. exists (<[n := d]> b). rewrite lookup_insert_eq.
      split; [reflexivity|]. rewrite lookup_insert_ne by done. congruence.
    + congruence.
  - destruct (deleteConfig_state db n) as [->|(b & Hb & _ & ->)];
      [reflexivity|].
    apply getConfig_local.
    + intros b0 Hb0. exists (delete n b). rewrite lookup_insert_eq.
      split; [reflexivity|]. rewrite lookup_delete_ne by done. congruence.
    + congruence.
Qed.

Lemma save_delete_frame_witness :
  (∀ d, getConfig
          (fst (saveConfig (fun _ => true) homeStore (request "other" d)))
          "home"
        = getConfig homeStore "home")
  ∧ getConfig (fst (deleteConfig homeStore "other")) "home"
    = getConfig homeStore "home".
Proof.
  apply (save_delete_frame (fun _ => true) homeStore "other" "home").
  discriminate.
Defined.

(** ** The order of the keys and the list *)

Lemma compare_not_Gt_trans (s1 s2 s3 : string) :
  String.compare s1 s2 ≠ Gt → String.compare s2 s3 ≠ Gt →
  String.compare s1 s3 ≠ Gt.
Proof.
  revert s2 s3. induction s1 as [|c1 s1 IH]; intros [|c2 s2] [|c3 s3];
    simpl; try congruence.
  unfold Ascii.compare.
  destruct (N.compare_spec (N_of_ascii c1) (N_of_ascii c2)) as [E12|L12|G12],
           (N.compare_spec (N_of_ascii c2) (N_of_ascii c3)) as [E23|L23|G23],
           (N.compare_spec (N_of_ascii c1) (N_of_ascii c3)) as [E13|L13|G13];
    try congruence; try lia; eauto.
Qed.

Lemma leb_not_Gt (s1 s2 : string) :
  String.leb s1 s2 = true ↔ String.compare s1 s2 ≠ Gt.
Proof. unfold String.leb. destruct (String.compare s1 s2); split; congruence. Qed.

Lemma leb_trans (s1 s2 s3 : string) :
  String.leb s1 s2 = true → String.leb s2 s3 = true →
  String.leb s1 s3 = true.
Proof. rewrite !leb_not_Gt. apply compare_not_Gt_trans. Qed.

#[global] Instance key_le_total : Total bolt.key_le.
Proof. intros e1 e2. apply String.leb_total. Qed.

#[global] Instance key_le_trans : Transitive bolt.key_le.
Proof. intros e1 e2 e3. apply leb_trans. Qed.

Lemma entries_Permutation (b : bolt.Bucket) : bolt.entries b ≡ₚ map_to_list b.
Proof. apply merge_sort_Permutation. Qed.

Lemma entries_sorted (b : bolt.Bucket) :
  StronglySorted bolt.key_le (bolt.entries b).
Proof. apply StronglySorted_merge_sort; apply _. Qed.

Lemma foldl_snoc_fmap {A B : Type} (f : A → B) (l : list A) (acc : list B) :
  foldl (fun acc e => (acc ++ [f e])%list) acc l = (acc ++ (f <$> l))%list.
Proof.
  revert acc. induction l as [|e l IH]; intros acc; simpl.
  - by rewrite app_nil_r.
  - by rewrite IH, <- app_assoc.
Qed.

Lemma listConfig_entries (db : bolt.DB) (b : bolt.Bucket) :
  db !! defaultBucket = Some b →
  listConfig db = listed (toItem <$> bolt.entries b).
Proof.
  intros Hb. unfold listConfig, bolt.View, bolt.TxBucket, bolt.ForEach.
  rewrite Hb. unfold listed. do 4 f_equal.
  - exact (foldl_snoc_fmap toItem (bolt.entries b) []).
  - f_equal. f_equal. exact (foldl_snoc_fmap toItem (bolt.entries b) []).
Qed.

Lemma saveAll_bucket (jsonValid : string → bool) (reqs : list pageItem) :
  ∀ (db : bolt.DB) (b : bolt.Bucket),
    db !! defaultBucket = Some b →
    Forall (fun p => storable (Name p) (Config p)) reqs →
    saveAll jsonValid db reqs !! defaultBucket
    = Some (foldl (fun b p => <[Name p := Config p]> b) b reqs).
Proof.
  induction reqs as [|p reqs IH]; intros db b Hb Hall; [exact Hb|].
  apply Forall_cons in Hall as [Hp Hall]. unfold saveAll. simpl.
  destruct p as [n d]. simpl in *.
  change (inr {| Name := n; Config := d |}) with (request n d).
  rewrite (saveConfig_storable jsonValid db b n d Hb Hp). simpl.
  apply IH; [apply lookup_insert_eq|exact Hall].
Qed.

Lemma fold_insert_lookup_None (reqs : list pageItem) :
  ∀ (b : bolt.Bucket) (k : string),
    b !! k = None → k ∉ Name <$> reqs →
    foldl (fun b p => <[Name p := Config p]> b) b reqs !! k = None.
Proof.
  induction reqs as [|p reqs IH]; intros b k Hk Hnin; [exact Hk|].
  simpl. rewrite fmap_cons, not_elem_of_cons in Hnin. destruct Hnin as [Hne Hnin].
  apply IH; [|exact Hnin]. by rewrite lookup_insert_ne.
Qed.

Lemma fold_insert_to_list (reqs : list pageItem) :
  NoDup (Name <$> reqs) →
  map_to_list (foldl (fun b p => <[Name p := Config p]> b)
                     (∅ : bolt.Bucket) reqs)
  ≡ₚ (fun p => (Name p, Config p)) <$> reqs.
Proof.
  induction reqs as [|p reqs IH] using rev_ind; intros Hnd.
  - simpl. by rewrite map_to_list_empty.
  - rewrite fmap_app in Hnd. apply NoDup_app in Hnd as (Hnd & Hdisj & _).
    rewrite foldl_snoc, fmap_app. simpl.
    rewrite map_to_list_insert.
    + rewrite (IH Hnd). by rewrite Permutation_app_comm.
    + apply fold_insert_lookup_None; [apply lookup_empty|].
      intros Hin. apply (Hdisj _ Hin). simpl. apply list_elem_of_here.
Qed.

Lemma toItem_pair (reqs : list pageItem) :
  toItem <$> ((fun p => (Name p, Config p)) <$> reqs) = reqs.
Proof.
  induction reqs as [|[n d] reqs IH]; [reflexivity|].
  rewrite !fmap_cons. f_equal. exact IH.
Qed.

(** C6: on a database whose bucket is empty, after the save of [N]
    requests with distinct names, each with a name and a document the
    bucket takes, [list()] succeeds with [total = N] and [N] items; the
    items are the saved requests, each once, with the document saved
    under its name, and they are in the order of the bytes of their
    names. *)
Theorem list_after_saves (jsonValid : string → bool) (db : bolt.DB)
    (reqs : list pageItem) :
  db !! defaultBucket = Some ∅ →
  NoDup (Name <$> reqs) →
  Forall (fun p => storable (Name p) (Config p)) reqs →
  ∃ pages,
    listConfig (saveAll jsonValid db reqs)
    = RespJSON StatusOK
        {| Status := 0; Msg := EmptyString;
           Data := Some {| items := pages;
                           total := Z.of_nat (length reqs) |} |}
    ∧ length pages = length reqs
    ∧ pages ≡ₚ reqs
    ∧ StronglySorted name_le pages.
Proof.
  intros Hb Hnd Hall.
  pose proof (saveAll_bucket jsonValid reqs db ∅ Hb Hall) as Hb'.
  set (b := foldl (fun b p => <[Name p := Config p]> b) ∅ reqs) in *.
  assert (toItem <$> bolt.entries b ≡ₚ reqs) as Hperm.
  { rewrite entries_Permutation. unfold b.
    rewrite (fold_insert_to_list reqs Hnd). by rewrite toItem_pair. }
  exists (toItem <$> bolt.entries b).
  rewrite (listConfig_entries _ _ Hb'). unfold listed.
  rewrite (Permutation_length Hperm). repeat split; [exact Hperm|].
  apply (StronglySorted_fmap toItem bolt.key_le name_le);
    [intros x y Hxy; exact Hxy|apply entries_sorted].
Qed.

Lemma list_after_saves_witness :
  ∃ pages,
    listConfig
      (saveAll (fun _ => true) emptyStore
         [ {| Name := "home"; Config := "{}" |};
           {| Name := "about"; Config := "[]" |} ])
    = RespJSON StatusOK
        {| Status := 0; Msg := EmptyString;
           Data := Some {| items := pages; total := 2 |} |}
    ∧ length pages = 2%nat
    ∧ pages ≡ₚ [ {| Name := "home"; Config := "{}" |};
                 {| Name := "about"; Config := "[]" |} ]
    ∧ StronglySorted name_le pages.
Proof.
  apply (list_after_saves (fun _ => true) emptyStore
           [ {| Name := "home"; Config := "{}" |};
             {| Name := "about"; Config := "[]" |} ]).
  - reflexivity.
  - compute_done.
  - repeat constructor; simpl; try discriminate; vm_compute; discriminate.
Defined.

(** The list of the witness, as it is computed. *)
Example list_after_saves_run :
  listConfig
    (saveAll (fun _ => true) emptyStore
       [ {| Name := "home"; Config := "{}" |};
         {| Name := "about"; Config := "[]" |} ])
  = listed [ {| Name := "about"; Config := "[]" |};
             {| Name := "home"; Config := "{}" |} ].
Proof. vm_compute. reflexivity. Qed.

(** ** File names and their suffix *)

Lemma length_app (s1 s2 : string) :
  String.length (s1 +:+ s2) = (String.length s1 + String.length s2)%nat.
Proof. induction s1 as [|c s1 IH]; simpl; [reflexivity|by rewrite IH]. Qed.

Lemma substring_all (s : string) : substring 0 (String.length s) s = s.
Proof. induction s as [|c s IH]; simpl; [reflexivity|by rewrite IH]. Qed.

Lemma substring_app_l (p s : string) :
  substring 0 (String.length p) (p +:+ s) = p.
Proof.
  induction p as [|c p IH]; simpl; [by destruct s|by rewrite IH].
Qed.

Lemma substring_app_r (p s : string) :
  substring (String.length p) (String.length s) (p +:+ s) = s.
Proof.
  induction p as [|c p IH]; simpl; [apply substring_all|exact IH].
Qed.

Lemma substring_split (s : string) :
  ∀ k : nat, (k <= String.length s)%nat →
    substring 0 k s +:+ substring k (String.length s - k) s = s.
Proof.
  induction s as [|c s IH]; intros k Hk; simpl in *.
  - assert (k = 0%nat) as -> by lia. reflexivity.
  - destruct k as [|k]; simpl.
    + by rewrite substring_all.
    + transitivity
        (String c (substring 0 k s +:+ substring k (String.length s - k) s));
        [reflexivity|].
      rewrite IH by lia. reflexivity.
Qed.

Lemma HasSuffix_app (p suffix : string) :
  strings.HasSuffix (p +:+ suffix) suffix = true.
Proof.
  unfold strings.HasSuffix. rewrite length_app.
  replace (String.length p + String.length suffix - String.length suffix)%nat
    with (String.length p) by lia.
  rewrite substring_app_r, String.eqb_refl, andb_true_r.
  apply Nat.leb_le. lia.
Qed.

Lemma HasSuffix_inv (s suffix : string) :
  strings.HasSuffix s suffix = true →
  s = substring 0 (String.length s - String.length suffix) s +:+ suffix.
Proof.
  unfold strings.HasSuffix. intros H.
  apply andb_true_iff in H as [Hle Heq].
  apply Nat.leb_le in Hle. apply String.eqb_eq in Heq.
  pose proof (substring_split s (String.length s - String.length suffix)) as Hs.
  replace (String.length s - (String.length s - String.length suffix))%nat
    with (String.length suffix) in Hs by lia.
  rewrite Heq in Hs. symmetry. apply Hs. lia.
Qed.

Lemma TrimSuffix_app (p suffix : string) :
  strings.TrimSuffix (p +:+ suffix) suffix = p.
Proof.
  unfold strings.TrimSuffix. rewrite HasSuffix_app, length_app.
  replace (String.length p + String.length suffix - String.length suffix)%nat
    with (String.length p) by lia.
  apply substring_app_l.
Qed.

Lemma TrimSuffix_inv (s suffix : string) :
  strings.HasSuffix s suffix = true →
  s = strings.TrimSuffix s suffix +:+ suffix.
Proof.
  intros H. unfold strings.TrimSuffix. rewrite H. by apply HasSuffix_inv.
Qed.

Lemma extScan_app_json (p : string) :
  filepath.extScan (p +:+ ".json") = Some ".json".
Proof. induction p as [|c p IH]; simpl; [reflexivity|by rewrite IH]. Qed.

Lemma extScan_suffix (s e : string) :
  filepath.extScan s = Some e → e = EmptyString ∨ ∃ p, s = p +:+ e.
Proof.
  revert e. induction s as [|c s IH]; intros e; simpl; [discriminate|].
  destruct (filepath.extScan s) as [e'|].
  - intros [= <-]. destruct (IH e' eq_refl) as [->|[p ->]]; [by left|].
    right. by exists (String c p).
  - destruct (filepath.IsPathSeparator c); [intros [= <-]; by left|].
    destruct (Ascii.eqb c "."); [|discriminate].
    intros [= <-]. right. by exists EmptyString.
Qed.

(** [filepath.Ext] gives [.json] exactly on the names that end with it. *)
Lemma Ext_json (s : string) :
  String.eqb (filepath.Ext s) ".json" = strings.HasSuffix s ".json".
Proof.
  destruct (strings.HasSuffix s ".json") eqn:H.
  - apply HasSuffix_inv in H. rewrite H. unfold filepath.Ext.
    by rewrite extScan_app_json.
  - apply String.eqb_neq. intros HE. unfold filepath.Ext in HE.
    destruct (filepath.extScan s) as [e|] eqn:Hs; [|discriminate].
    subst e. apply extScan_suffix in Hs as [?|[p ->]]; [discriminate|].
    by rewrite HasSuffix_app in H.
Qed.

(** ** The seed loader *)

Lemma walk_seedPair (d : fs.DirEntry) (bucket : bolt.Bucket) :
  initBoltDB_walk d bucket
  = (match seedPair d with
     | Some e => upsert bucket e
     | None => bucket
     end, None).
Proof.
  unfold initBoltDB_walk, seedPair, filename, upsert.
  destruct (fs.isDir d); [reflexivity|].
  unfold filepath.Split. simpl.
  set (f := snd (filepath.splitScan (fs.path d))).
  rewrite Ext_json.
  destruct (strings.HasSuffix f ".json") eqn:H; simpl; [|reflexivity].
  assert (filepath.Ext f = ".json") as ->.
  { apply String.eqb_eq. by rewrite Ext_json. }
  destruct (fs.contents d) as [data|]; [|reflexivity]. simpl.
  by destruct (bolt.Put bucket (strings.TrimSuffix f ".json") data).
Qed.

Lemma WalkDir_seeds (systemStatic : list fs.DirEntry) :
  ∀ bucket : bolt.Bucket,
    fs.WalkDir systemStatic initBoltDB_walk bucket
    = (foldl upsert bucket (seeds systemStatic), None).
Proof.
  induction systemStatic as [|d rest IH]; intros bucket; [reflexivity|].
  simpl. rewrite walk_seedPair, IH. unfold seeds. simpl.
  by destruct (seedPair d).
Qed.

Lemma initBoltDB_seeds (systemStatic : list fs.DirEntry) (db : bolt.DB) :
  initBoltDB systemStatic db
  = <[defaultBucket := foldl upsert (pageBucket db) (seeds systemStatic)]> db.
Proof.
  unfold initBoltDB, bolt.Batch, bolt.Update, bolt.CreateBucketIfNotExists,
    pageBucket.
  change (len defaultBucket =? 0) with false. cbv iota.
  destruct (db !! defaultBucket) as [b|]; rewrite WalkDir_seeds; simpl.
  - reflexivity.
  - apply insert_insert_eq.
Qed.

Lemma pageBucket_initBoltDB (systemStatic : list fs.DirEntry) (db : bolt.DB) :
  pageBucket (initBoltDB systemStatic db)
  = foldl upsert (pageBucket db) (seeds systemStatic).
Proof.
  rewrite initBoltDB_seeds. unfold pageBucket at 1.
  by rewrite lookup_insert_eq.
Qed.

(** After [initBoltDB] the database has the bucket. *)
Lemma initBoltDB_bucket (systemStatic : list fs.DirEntry) (db : bolt.DB) :
  initBoltDB systemStatic db !! defaultBucket
  = Some (pageBucket (initBoltDB systemStatic db)).
Proof.
  rewrite pageBucket_initBoltDB, initBoltDB_seeds. apply lookup_insert_eq.
Qed.

Lemma upsert_lookup_ne (b : bolt.Bucket) (e : string * string) (m : string) :
  m ≠ fst e → upsert b e !! m = b !! m.
Proof.
  intros Hne. unfold upsert.
  destruct (bolt.Put b (fst e) (snd e)) as [err|b'] eqn:HP; [reflexivity|].
  apply Put_inr in HP as [_ ->]. by rewrite lookup_insert_ne.
Qed.

Lemma upsert_storable (b : bolt.Bucket) (n d : string) :
  storable n d → upsert b (n, d) = <[n := d]> b.
Proof. intros Hs. unfold upsert. simpl. by rewrite (Put_storable _ _ _ Hs). Qed.

Lemma fold_upsert_frame (l : list (string * string)) :
  ∀ (b : bolt.Bucket) (m : string),
    m ∉ l.*1 → foldl upsert b l !! m = b !! m.
Proof.
  induction l as [|e l IH]; intros b m Hm; [reflexivity|].
  rewrite fmap_cons, not_elem_of_cons in Hm. destruct Hm as [Hne Hm].
  simpl. rewrite (IH _ _ Hm). by apply upsert_lookup_ne.
Qed.

Lemma fold_upsert_last (l1 l2 : list (string * string)) (b : bolt.Bucket)
    (n d : string) :
  n ∉ l2.*1 → storable n d →
  foldl upsert b (l1 ++ (n, d) :: l2) !! n = Some d.
Proof.
  intros Hn Hs. rewrite foldl_app. simpl.
  rewrite (fold_upsert_frame _ _ _ Hn), (upsert_storable _ _ _ Hs).
  apply lookup_insert_eq.
Qed.

Lemma fold_upsert_origin (l : list (string * string)) :
  ∀ (b : bolt.Bucket) (k v : string),
    foldl upsert b l !! k = Some v → b !! k = Some v ∨ (k, v) ∈ l.
Proof.
  induction l as [|[n d] l IH]; intros b k v Hk; [by left|].
  simpl in Hk. apply IH in Hk as [Hk|Hk]; [|right; by apply list_elem_of_further].
  unfold upsert in Hk. simpl in Hk.
  destruct (bolt.Put b n d) as [err|b'] eqn:HP; [by left|].
  apply Put_inr in HP as [_ ->].
  destruct (decide (n = k)) as [->|Hne].
  - rewrite lookup_insert_eq in Hk. injection Hk as ->.
    right. apply list_elem_of_here.
  - rewrite lookup_insert_ne in Hk by done. by left.
Qed.

Lemma seedPair_Some (d : fs.DirEntry) (k v : string) :
  seedPair d = Some (k, v) →
  fs.isDir d = false ∧ filename d = k +:+ ".json" ∧ fs.contents d = Some v.
Proof.
  unfold seedPair. destruct (fs.isDir d); [discriminate|].
  destruct (strings.HasSuffix (filename d) ".json") eqn:H; [|discriminate].
  destruct (fs.contents d) as [data|]; [|discriminate].
  intros [= <- <-]. split; [reflexivity|]. split; [|reflexivity].
  by apply TrimSuffix_inv.
Qed.

Lemma seedPair_no_suffix (d : fs.DirEntry) :
  hasDocumentSuffix d = false → seedPair d = None.
Proof.
  unfold hasDocumentSuffix, seedPair. intros ->. by destruct (fs.isDir d).
Qed.

Lemma seedPair_unreadable (d : fs.DirEntry) :
  fs.contents d = None → seedPair d = None.
Proof.
  unfold seedPair. intros ->.
  destruct (fs.isDir d); [reflexivity|].
  by destruct (strings.HasSuffix (filename d) ".json").
Qed.

Lemma seeds_origin (systemStatic : list fs.DirEntry) (k v : string) :
  (k, v) ∈ seeds systemStatic →
  ∃ d, d ∈ systemStatic ∧ fs.isDir d = false
       ∧ filename d = k +:+ ".json" ∧ fs.contents d = Some v.
Proof.
  unfold seeds. rewrite list_elem_of_omap. intros (d & Hd & Hp).
  exists d. split; [exact Hd|]. by apply seedPair_Some.
Qed.

Lemma seeds_filter (systemStatic : list fs.DirEntry) :
  seeds (List.filter hasDocumentSuffix systemStatic) = seeds systemStatic.
Proof.
  unfold seeds. induction systemStatic as [|d rest IH]; [reflexivity|].
  change (List.filter hasDocumentSuffix (d :: rest))
    with (if hasDocumentSuffix d
          then d :: List.filter hasDocumentSuffix rest
          else List.filter hasDocumentSuffix rest).
  destruct (hasDocumentSuffix d) eqn:H.
  - change (omap seedPair (d :: List.filter hasDocumentSuffix rest))
      with (match seedPair d with
            | Some e => e :: omap seedPair (List.filter hasDocumentSuffix rest)
            | None => omap seedPair (List.filter hasDocumentSuffix rest)
            end).
    by rewrite IH.
  - rewrite IH.
    change (omap seedPair (d :: rest))
      with (match seedPair d with
            | Some e => e :: omap seedPair rest
            | None => omap seedPair rest
            end).
    by rewrite (seedPair_no_suffix _ H).
Qed.

Lemma seeds_app (l1 l2 : list fs.DirEntry) :
  seeds (l1 ++ l2) = (seeds l1 ++ seeds l2)%list.
Proof. apply omap_app. Qed.

(** ** The seed loader: suffix, read failures, overwrite *)

(** C7: a visit whose file name lacks the suffix [.json] leaves the
    bucket as it is, so that the seed loading gives the same database
    with these files and without them; and every entry the bucket has
    after the loading was there before it or has, as its name, the name of
    a bundled file without its suffix [.json], and as its value that
    file's bytes. *)
Theorem seed_suffix_only (systemStatic : list fs.DirEntry) (db : bolt.DB) :
  (∀ d bucket, hasDocumentSuffix d = false →
               initBoltDB_walk d bucket = (bucket, None))
  ∧ initBoltDB systemStatic db
    = initBoltDB (List.filter hasDocumentSuffix systemStatic) db
  ∧ (∀ k v, pageBucket (initBoltDB systemStatic db) !! k = Some v →
            pageBucket db !! k = Some v
            ∨ ∃ d, d ∈ systemStatic ∧ fs.isDir d = false
                   ∧ filename d = k +:+ ".json" ∧ fs.contents d = Some v).
Proof.
  split; [|split].
  - intros d bucket H. by rewrite walk_seedPair, (seedPair_no_suffix _ H).
  - by rewrite !initBoltDB_seeds, seeds_filter.
  - intros k v. rewrite pageBucket_initBoltDB. intros Hk.
    apply fold_upsert_origin in Hk as [Hk|Hk]; [by left|].
    right. by apply seeds_origin.
Qed.

Lemma seed_suffix_only_witness :
  initBoltDB_walk (file "static/amis.tmpl" "<html>") ∅ = (∅, None)
  ∧ initBoltDB pageAndTemplate emptyStore
    = initBoltDB [ file "static/index.json" "{}" ] emptyStore.
Proof.
  split.
  - apply (proj1 (seed_suffix_only [] ∅)). reflexivity.
  - exact (proj1 (proj2 (seed_suffix_only pageAndTemplate emptyStore))).
Defined.

(** The database of the witness, as it is computed. *)
Example seed_suffix_only_run :
  initBoltDB pageAndTemplate emptyStore
  = {[ defaultBucket := {[ "index" := "{}" ]} ]}.
Proof. vm_compute. reflexivity. Qed.

(** C8: a visit whose read fails leaves the bucket as it is and returns
    no error; the walk over a bundle that holds it is not stopped, and the
    seed loading gives the database it gives on the bundle without that
    one visit; and the seed pairs of the other visits are written: after
    the loading the bucket has, under the name of each of them that the
    bucket takes, the document of the last seed pair of that name. *)
Theorem seed_read_failure_skipped (before after : list fs.DirEntry)
    (d : fs.DirEntry) (db : bolt.DB) (bucket : bolt.Bucket) :
  fs.contents d = None →
  initBoltDB_walk d bucket = (bucket, None)
  ∧ snd (fs.WalkDir (before ++ d :: after) initBoltDB_walk bucket) = None
  ∧ initBoltDB (before ++ d :: after) db = initBoltDB (before ++ after) db
  ∧ (∀ name A earlier later,
       seeds (before ++ after) = (earlier ++ (name, A) :: later)%list →
       name ∉ later.*1 → storable name A →
       pageBucket (initBoltDB (before ++ d :: after) db) !! name = Some A
       ∧ (A ≠ EmptyString →
          getConfig (initBoltDB (before ++ d :: after) db) name = served A)).
Proof.
  intros Hd.
  assert (seeds (before ++ d :: after) = seeds (before ++ after)) as Hseeds.
  { rewrite !seeds_app. unfold seeds at 2.
    change (omap seedPair (d :: after))
      with (match seedPair d with
            | Some e => e :: omap seedPair after
            | None => omap seedPair after
            end).
    by rewrite (seedPair_unreadable _ Hd). }
  split; [|split; [|split]].
  - by rewrite walk_seedPair, (seedPair_unreadable _ Hd).
  - by rewrite WalkDir_seeds.
  - by rewrite !initBoltDB_seeds, Hseeds.
  - intros name A earlier later Hpairs Hlast Hs.
    assert (pageBucket (initBoltDB (before ++ d :: after) db) !! name = Some A)
      as Hin.
    { rewrite pageBucket_initBoltDB, Hseeds, Hpairs.
      by apply fold_upsert_last. }
    split; [exact Hin|]. intros HA.
    rewrite (getConfig_observed _ _ _ (initBoltDB_bucket _ _)); [|apply Hs].
    unfold observed. by rewrite Hin, (len_nonzero _ HA).
Qed.

Lemma seed_read_failure_skipped_witness :
  initBoltDB_walk (unreadable "static/b.json") ∅ = (∅, None)
  ∧ snd (fs.WalkDir brokenPage initBoltDB_walk ∅) = None
  ∧ initBoltDB brokenPage emptyStore
    = initBoltDB
        [ dir "static"; file "static/a.json" "[1]"; file "static/c.json" "[3]" ]
        emptyStore
  ∧ pageBucket (initBoltDB brokenPage emptyStore) !! "a" = Some "[1]"
  ∧ pageBucket (initBoltDB brokenPage emptyStore) !! "c" = Some "[3]"
  ∧ getConfig (initBoltDB brokenPage emptyStore) "c" = served "[3]".
Proof.
  pose proof (seed_read_failure_skipped
                [ dir "static"; file "static/a.json" "[1]" ]
                [ file "static/c.json" "[3]" ]
                (unreadable "static/b.json") emptyStore ∅ eq_refl)
    as (Hwalk & Hgoes & Hsame & Hwritten).
  split; [exact Hwalk|]. split; [exact Hgoes|]. split; [exact Hsame|].
  split; [|split].
  - apply (Hwritten "a" "[1]" [] [ ("c", "[3]") ]).
    + reflexivity.
    + compute_done.
    + repeat split; [discriminate|vm_compute; discriminate..].
  - apply (Hwritten "c" "[3]" [ ("a", "[1]") ] []).
    + reflexivity.
    + compute_done.
    + repeat split; [discriminate|vm_compute; discriminate..].
  - apply (Hwritten "c" "[3]" [ ("a", "[1]") ] []).
    + reflexivity.
    + compute_done.
    + repeat split; [discriminate|vm_compute; discriminate..].
    + discriminate.
Defined.

(** The database of the witness, as it is computed. *)
Example seed_read_failure_run :
  initBoltDB brokenPage emptyStore
  = {[ defaultBucket := {[ "a" := "[1]"; "c" := "[3]" ]} ]}.
Proof. vm_compute. reflexivity. Qed.

(** C3, as the code has it: after the seed loading, [get] of the name of
    a seed pair returns the document of the last seed pair of that name in
    the order of the walk, whatever was stored under the name before, when
    that document is not empty and the bucket takes the pair; and the
    bucket has at a name that no seed pair has what it had before. *)
Theorem seed_overwrite (systemStatic : list fs.DirEntry) (db : bolt.DB) :
  (∀ name A earlier later,
     seeds systemStatic = (earlier ++ (name, A) :: later)%list →
     name ∉ later.*1 → storable name A → A ≠ EmptyString →
     getConfig (initBoltDB systemStatic db) name = served A)
  ∧ (∀ m, m ∉ (seeds systemStatic).*1 →
          pageBucket (initBoltDB systemStatic db) !! m = pageBucket db !! m).
Proof.
  split.
  - intros name A earlier later Hseeds Hlast Hs HA.
    rewrite (getConfig_observed _ _ _ (initBoltDB_bucket systemStatic db));
      [|apply Hs].
    unfold observed. rewrite pageBucket_initBoltDB, Hseeds.
    rewrite (fold_upsert_last _ _ _ _ _ Hlast Hs).
    by rewrite (len_nonzero _ HA).
  - intros m Hm. rewrite pageBucket_initBoltDB. by apply fold_upsert_frame.
Qed.

Lemma seed_overwrite_witness :
  getConfig (initBoltDB twoHomes homeStore) "home" = served "[2]"
  ∧ pageBucket (initBoltDB twoHomes homeStore) !! "about"
    = pageBucket homeStore !! "about".
Proof.
  split.
  - apply (proj1 (seed_overwrite twoHomes homeStore)
             "home" "[2]" [ ("home", "[1]") ] []).
    + reflexivity.
    + compute_done.
    + repeat split; [discriminate|vm_compute; discriminate..].
    + discriminate.
  - apply (proj2 (seed_overwrite twoHomes homeStore) "about"). compute_done.
Defined.

(** C3 as stated fails: of two seed pairs of one name, [get] returns the
    document of the second and not of the first; and for a seed pair whose
    document is empty, [get] returns the fallback document. *)
Lemma seed_overwrite_counterexample :
  (("home", "[1]") ∈ seeds twoHomes
   ∧ getConfig (initBoltDB twoHomes homeStore) "home" = served "[2]"
   ∧ served "[2]" ≠ served "[1]")
  ∧ (("blank", EmptyString) ∈ seeds blankPage
     ∧ getConfig (initBoltDB blankPage homeStore) "blank"
       = served page404Data
     ∧ served page404Data ≠ served EmptyString).
Proof.
  repeat split; try discriminate; try (vm_compute; reflexivity).
  - apply list_elem_of_here.
  - apply list_elem_of_here.
Qed.

(** ** Validation *)

(** The rules [pageItem] declares, read under the key they are declared
    under: the name and the document are required and the document is
    valid JSON. *)
Lemma declared_rules (jsonValid : string → bool) (p : pageItem) :
  validator.Struct jsonValid "validate" (pageItem_fields p) = []
  ↔ Name p ≠ EmptyString ∧ Config p ≠ EmptyString
    ∧ jsonValid (Config p) = true.
Proof.
  destruct p as [n d]. unfold validator.Struct, pageItem_fields. simpl.
  unfold validator.failedRule, validator.holds. simpl.
  destruct (String.eqb_spec n EmptyString) as [->|Hn];
    destruct (String.eqb_spec d EmptyString) as [->|Hd];
    destruct (jsonValid _) eqn:Hj; simpl;
    split; try discriminate; try (intros (? & ? & ?); congruence);
    try done.
Qed.

(** The validator of gin reads the rules under another key, under which
    [pageItem] declares none: no decoded request fails the binding. *)
Lemma bound_rules (jsonValid : string → bool) (p : pageItem) :
  validator.Struct jsonValid gin.tagName (pageItem_fields p) = [].
Proof. reflexivity. Qed.

(** C4, on the code: [save] of a document that is not valid JSON, and of
    an empty document, succeeds and stores the document, whatever
    [json.Valid] says of it; [save] under the empty name fails on the
    bucket's own check and leaves the database as it was. *)
Theorem save_skips_validation (jsonValid : string → bool) :
  saveConfig jsonValid emptyStore (request "x" "{not json")
  = ({[ defaultBucket := {[ "x" := "{not json" ]} ]},
     success "save page config successfully")
  ∧ getConfig (fst (saveConfig jsonValid emptyStore (request "x" "{not json")))
      "x"
    = served "{not json"
  ∧ saveConfig jsonValid emptyStore (request "x" EmptyString)
    = ({[ defaultBucket := {[ "x" := EmptyString ]} ]},
       success "save page config successfully")
  ∧ saveConfig jsonValid emptyStore (request EmptyString "{}")
    = (emptyStore, failure "key required").
Proof. repeat split; vm_compute; reflexivity. Qed.

(** ** The bucket is there *)

Section Reachable.

Variable jsonValid : string → bool.

Lemma saveConfig_keeps_bucket (db : bolt.DB) (decoded : string + pageItem) :
  is_Some (db !! defaultBucket) →
  is_Some (fst (saveConfig jsonValid db decoded) !! defaultBucket).
Proof.
  intros Hb. destruct decoded as [msg|[n d]]; [exact Hb|].
  change (inr {| Name := n; Config := d |}) with (request n d).
  destruct (saveConfig_state jsonValid db n d) as [->|(b & _ & _ & ->)];
    [exact Hb|].
  rewrite lookup_insert_eq. by eexists.
Qed.

Lemma deleteConfig_keeps_bucket (db : bolt.DB) (name : string) :
  is_Some (db !! defaultBucket) →
  is_Some (fst (deleteConfig db name) !! defaultBucket).
Proof.
  intros Hb.
  destruct (deleteConfig_state db name) as [->|(b & _ & _ & ->)]; [exact Hb|].
  rewrite lookup_insert_eq. by eexists.
Qed.

(** Every database the server can have has the bucket. *)
Lemma reachable_bucket (db : bolt.DB) :
  reachable jsonValid db → is_Some (db !! defaultBucket).
Proof.
  induction 1 as [systemStatic file|db decoded _ IH|db name _ IH].
  - rewrite initBoltDB_bucket. by eexists.
  - by apply saveConfig_keeps_bucket.
  - by apply deleteConfig_keeps_bucket.
Qed.

(** On such a database no handler panics on a missing bucket. *)
Lemma reachable_no_panic (db : bolt.DB) (name : string) :
  reachable jsonValid db →
  getConfig db name ≠ RespPanic ∧ listConfig db ≠ RespPanic
  ∧ snd (deleteConfig db name) ≠ RespPanic.
Proof.
  intros [b Hb]%reachable_bucket. split; [|split].
  - destruct (String.eqb_spec name EmptyString) as [->|Hn]; [discriminate|].
    by rewrite (getConfig_observed _ _ _ Hb Hn).
  - by rewrite (listConfig_entries _ _ Hb).
  - destruct (String.eqb_spec name EmptyString) as [->|Hn]; [discriminate|].
    by rewrite (deleteConfig_bucket _ _ _ Hb Hn).
Qed.

End Reachable.

(** ** How the handlers compose *)

Lemma upsert_cases (e : string * string) :
  (storable (fst e) (snd e) ∧ ∀ b, upsert b e = <[fst e := snd e]> b)
  ∨ (¬ storable (fst e) (snd e) ∧ ∀ b, upsert b e = b).
Proof.
  unfold upsert, bolt.Put, storable.
  destruct (len (fst e) =? 0) eqn:E0.
  { right. apply len_zero in E0. split; [|done]. intros [H _]. by apply H. }
  destruct (bolt.MaxKeySize <? len (fst e)) eqn:E1.
  { right. apply Z.ltb_lt in E1. split; [|done]. intros (_ & H & _). lia. }
  destruct (bolt.MaxValueSize <? len (snd e)) eqn:E2.
  { right. apply Z.ltb_lt in E2. split; [|done]. intros (_ & _ & H). lia. }
  left. apply Z.ltb_ge in E1, E2. split; [|done].
  repeat split; try assumption. intros H. rewrite H in E0. discriminate.
Qed.

Lemma saveConfig_upsert (jsonValid : string → bool) (db : bolt.DB)
    (b : bolt.Bucket) (n d : string) :
  db !! defaultBucket = Some b →
  fst (saveConfig jsonValid db (request n d))
  = <[defaultBucket := upsert b (n, d)]> db.
Proof.
  intros Hb. unfold saveConfig, request.
  rewrite ShouldBindJSON_pageItem. unfold bolt.Update, bolt.TxBucket, upsert.
  rewrite Hb. simpl.
  destruct (bolt.Put b n d); simpl; [by rewrite insert_id|reflexivity].
Qed.

Lemma saveConfig_no_bucket (jsonValid : string → bool) (db : bolt.DB)
    (decoded : string + pageItem) :
  db !! defaultBucket = None → fst (saveConfig jsonValid db decoded) = db.
Proof.
  intros Hb. destruct decoded as [msg|p]; [reflexivity|].
  unfold saveConfig. rewrite ShouldBindJSON_pageItem.
  unfold bolt.Update, bolt.TxBucket. by rewrite Hb.
Qed.

(** X1: the last write wins.  On a database that has the bucket, after a
    save under a name and a second save under the same name with a
    document the bucket takes, the database is the one the second save
    alone gives, whatever the first document was; [get] then returns the
    second document when it is not empty. *)
Theorem save_last_write_wins (jsonValid : string → bool) (db : bolt.DB)
    (b : bolt.Bucket) (n d1 d2 : string) :
  db !! defaultBucket = Some b → storable n d2 →
  fst (saveConfig jsonValid (fst (saveConfig jsonValid db (request n d1)))
         (request n d2))
  = fst (saveConfig jsonValid db (request n d2))
  ∧ (d2 ≠ EmptyString →
     getConfig
       (fst (saveConfig jsonValid
               (fst (saveConfig jsonValid db (request n d1))) (request n d2)))
       n
     = served d2).
Proof.
  intros Hb Hs.
  assert (fst (saveConfig jsonValid
                 (fst (saveConfig jsonValid db (request n d1))) (request n d2))
          = <[defaultBucket := <[n := d2]> b]> db) as ->.
  { rewrite (saveConfig_upsert jsonValid db b n d1 Hb).
    rewrite (saveConfig_upsert jsonValid _ (upsert b (n, d1)) n d2)
      by apply lookup_insert_eq.
    rewrite insert_insert_eq, (upsert_storable _ _ _ Hs).
    destruct (upsert_cases (n, d1)) as [[_ ->]|[_ ->]]; simpl;
      by rewrite ?insert_insert_eq. }
  split.
  - by rewrite (saveConfig_storable jsonValid db b n d2 Hb Hs).
  - intros Hd.
    rewrite (getConfig_observed _ (<[n := d2]> b) n);
      [|apply lookup_insert_eq|apply Hs].
    unfold observed. by rewrite lookup_insert_eq, (len_nonzero _ Hd).
Qed.

Lemma save_last_write_wins_witness :
  fst (saveConfig (fun _ => true)
         (fst (saveConfig (fun _ => true) emptyStore (request "home" "[1]")))
         (request "home" "[2]"))
  = fst (saveConfig (fun _ => true) emptyStore (request "home" "[2]"))
  ∧ ("[2]" ≠ EmptyString →
     getConfig
       (fst (saveConfig (fun _ => true)
               (fst (saveConfig (fun _ => true) emptyStore
                       (request "home" "[1]")))
               (request "home" "[2]")))
       "home"
     = served "[2]").
Proof.
  apply (save_last_write_wins (fun _ => true) emptyStore ∅ "home" "[1]" "[2]").
  - reflexivity.
  - repeat split; [discriminate|vm_compute; discriminate..].
Defined.

(** X2: on a database that has the bucket, [delete] of a name that is not
    empty succeeds, and [get] of that name then returns the fallback
    document, whatever was stored under the name. *)
Theorem delete_then_get_fallback (db : bolt.DB) (b : bolt.Bucket)
    (n : string) :
  db !! defaultBucket = Some b → n ≠ EmptyString →
  snd (deleteConfig db n) = success "delete page config successfully"
  ∧ getConfig (fst (deleteConfig db n)) n = served page404Data.
Proof.
  intros Hb Hn. rewrite (deleteConfig_bucket _ _ _ Hb Hn). simpl.
  split; [reflexivity|].
  rewrite (getConfig_observed _ (delete n b) n); [|apply lookup_insert_eq|done].
  unfold observed. by rewrite lookup_delete_eq.
Qed.

Lemma delete_then_get_fallback_witness :
  snd (deleteConfig homeStore "home")
  = success "delete page config successfully"
  ∧ getConfig (fst (deleteConfig homeStore "home")) "home"
    = served page404Data.
Proof.
  apply (delete_then_get_fallback homeStore {[ "home" := "{}" ]} "home").
  - reflexivity.
  - discriminate.
Defined.

(** X3: on a database that has the bucket, a save under a name that has
    no entry followed by the delete of that name gives back the database
    as it was. *)
Theorem save_then_delete_restores (jsonValid : string → bool) (db : bolt.DB)
    (b : bolt.Bucket) (n d : string) :
  db !! defaultBucket = Some b → b !! n = None → storable n d →
  fst (deleteConfig (fst (saveConfig jsonValid db (request n d))) n) = db.
Proof.
  intros Hb Hn Hs.
  rewrite (saveConfig_storable jsonValid db b n d Hb Hs). simpl.
  rewrite (deleteConfig_bucket _ (<[n := d]> b) n);
    [|apply lookup_insert_eq|apply Hs].
  simpl. rewrite insert_insert_eq, delete_insert_eq, (delete_id _ _ Hn).
  by apply insert_id.
Qed.

Lemma save_then_delete_restores_witness :
  fst (deleteConfig
         (fst (saveConfig (fun _ => true) homeStore (request "about" "[]")))
         "about")
  = homeStore.
Proof.
  apply (save_then_delete_restores (fun _ => true) homeStore
           {[ "home" := "{}" ]} "about" "[]").
  - reflexivity.
  - reflexivity.
  - repeat split; [discriminate|vm_compute; discriminate..].
Defined.

(** X4: no partial write.  On every database, a save that does not report
    success and a delete that does not report success leave the database
    as it was. *)
Theorem failed_write_changes_nothing (jsonValid : string → bool)
    (db : bolt.DB) (decoded : string + pageItem) (name : string) :
  (snd (saveConfig jsonValid db decoded)
   ≠ success "save page config successfully" →
   fst (saveConfig jsonValid db decoded) = db)
  ∧ (snd (deleteConfig db name) ≠ success "delete page config successfully" →
     fst (deleteConfig db name) = db).
Proof.
  split.
  - intros Hf. destruct decoded as [msg|[n d]]; [reflexivity|].
    change (inr {| Name := n; Config := d |}) with (request n d) in *.
    destruct (db !! defaultBucket) as [b|] eqn:Hb;
      [|by apply saveConfig_no_bucket].
    rewrite (saveConfig_upsert jsonValid db b n d Hb).
    destruct (upsert_cases (n, d)) as [[Hs _]|[_ ->]]; [|by apply insert_id].
    rewrite (saveConfig_storable jsonValid db b n d Hb Hs) in Hf. by destruct Hf.
  - intros Hf. destruct (String.eqb_spec name EmptyString) as [->|Hn];
      [reflexivity|].
    destruct (db !! defaultBucket) as [b|] eqn:Hb.
    + rewrite (deleteConfig_bucket _ _ _ Hb Hn) in Hf. by destruct Hf.
    + destruct (deleteConfig_state db name) as [H|(b & Hb' & _)]; [exact H|].
      congruence.
Qed.

Lemma failed_write_changes_nothing_witness :
  fst (saveConfig (fun _ => true) homeStore (request EmptyString "{}"))
  = homeStore
  ∧ fst (deleteConfig homeStore EmptyString) = homeStore.
Proof.
  split.
  - apply (proj1 (failed_write_changes_nothing (fun _ => true) homeStore
                    (request EmptyString "{}") EmptyString)).
    vm_compute. discriminate.
  - apply (proj2 (failed_write_changes_nothing (fun _ => true) homeStore
                    (request EmptyString "{}") EmptyString)).
    vm_compute. discriminate.
Defined.

(** X5: what a save refuses.  On a database that has the bucket, a save
    under the empty name fails with [key required]; a save under a name of
    more than 32768 bytes fails with [key too large]; a save of a document
    of more than 2^31 - 2 bytes under a name the bucket takes fails with
    [value too large]; and a save under a name of exactly 32768 bytes
    succeeds. *)
Theorem save_bounds (jsonValid : string → bool) (db : bolt.DB)
    (b : bolt.Bucket) (n d : string) :
  db !! defaultBucket = Some b →
  (n = EmptyString →
   saveConfig jsonValid db (request n d) = (db, failure "key required"))
  ∧ (32768 < len n →
     saveConfig jsonValid db (request n d) = (db, failure "key too large"))
  ∧ (n ≠ EmptyString → len n <= 32768 → 2147483646 < len d →
     saveConfig jsonValid db (request n d) = (db, failure "value too large"))
  ∧ (len n = 32768 → len d <= 2147483646 →
     snd (saveConfig jsonValid db (request n d))
     = success "save page config successfully").
Proof.
  intros Hb.
  assert (∀ e, bolt.Put b n d = inl e →
               saveConfig jsonValid db (request n d)
               = (db, failure (bolt.Error e))) as Herr.
  { intros e He. unfold saveConfig, request.
    rewrite ShouldBindJSON_pageItem. unfold bolt.Update, bolt.TxBucket.
    rewrite Hb. simpl. by rewrite He. }
  repeat split.
  - intros ->. by apply (Herr bolt.ErrKeyRequired).
  - intros Hk. apply (Herr bolt.ErrKeyTooLarge). unfold bolt.Put.
    destruct (len n =? 0) eqn:E0; [apply Z.eqb_eq in E0; lia|].
    destruct (bolt.MaxKeySize <? len n) eqn:E1; [reflexivity|].
    apply Z.ltb_ge in E1. unfold bolt.MaxKeySize in E1. lia.
  - intros Hn Hk Hv. apply (Herr bolt.ErrValueTooLarge). unfold bolt.Put.
    rewrite (len_nonzero _ Hn).
    destruct (bolt.MaxKeySize <? len n) eqn:E1;
      [apply Z.ltb_lt in E1; unfold bolt.MaxKeySize in E1; lia|].
    destruct (bolt.MaxValueSize <? len d) eqn:E2; [reflexivity|].
    apply Z.ltb_ge in E2. change bolt.MaxValueSize with 2147483646 in E2. lia.
  - intros Hk Hv.
    rewrite (saveConfig_storable jsonValid db b n d Hb); [reflexivity|].
    repeat split.
    + intros ->. discriminate.
    + unfold bolt.MaxKeySize. lia.
    + change bolt.MaxValueSize with 2147483646. lia.
Qed.

Lemma save_bounds_witness :
  saveConfig (fun _ => true) homeStore (request (nameOfLength 32769) "{}")
  = (homeStore, failure "key too large")
  ∧ snd (saveConfig (fun _ => true) homeStore
           (request (nameOfLength 32768) "{}"))
    = success "save page config successfully".
Proof.
  split.
  - apply (save_bounds (fun _ => true) homeStore {[ "home" := "{}" ]}
             (nameOfLength 32769) "{}"); [reflexivity|].
    vm_compute. reflexivity.
  - apply (save_bounds (fun _ => true) homeStore {[ "home" := "{}" ]}
             (nameOfLength 32768) "{}"); [reflexivity| |].
    + vm_compute. reflexivity.
    + vm_compute. discriminate.
Defined.

(** X6: saves under two different names commute: on every database they
    give the same database in either order. *)
Theorem saves_commute (jsonValid : string → bool) (db : bolt.DB)
    (n1 d1 n2 d2 : string) :
  n1 ≠ n2 →
  fst (saveConfig jsonValid (fst (saveConfig jsonValid db (request n1 d1)))
         (request n2 d2))
  = fst (saveConfig jsonValid (fst (saveConfig jsonValid db (request n2 d2)))
          (request n1 d1)).
Proof.
  intros Hne. destruct (db !! defaultBucket) as [b|] eqn:Hb.
  - rewrite (saveConfig_upsert jsonValid db b n1 d1 Hb).
    rewrite (saveConfig_upsert jsonValid db b n2 d2 Hb).
    rewrite (saveConfig_upsert jsonValid _ (upsert b (n1, d1)) n2 d2)
      by apply lookup_insert_eq.
    rewrite (saveConfig_upsert jsonValid _ (upsert b (n2, d2)) n1 d1)
      by apply lookup_insert_eq.
    rewrite !insert_insert_eq. f_equal.
    destruct (upsert_cases (n1, d1)) as [[_ H1]|[_ H1]],
             (upsert_cases (n2, d2)) as [[_ H2]|[_ H2]];
      rewrite ?H1, ?H2; simpl; try reflexivity.
    apply insert_insert_ne. congruence.
  - rewrite (saveConfig_no_bucket jsonValid db (request n1 d1) Hb).
    rewrite (saveConfig_no_bucket jsonValid db (request n2 d2) Hb).
    by rewrite !(saveConfig_no_bucket jsonValid db _ Hb).
Qed.

Lemma saves_commute_witness :
  fst (saveConfig (fun _ => true)
         (fst (saveConfig (fun _ => true) emptyStore (request "a" "[1]")))
         (request "b" "[2]"))
  = fst (saveConfig (fun _ => true)
           (fst (saveConfig (fun _ => true) emptyStore (request "b" "[2]")))
           (request "a" "[1]")).
Proof.
  apply (saves_commute (fun _ => true) emptyStore "a" "[1]" "b" "[2]").
  discriminate.
Defined.

(** ** The list on any database *)

Lemma ltb_leb_ne (s1 s2 : string) :
  String.leb s1 s2 = true → s1 ≠ s2 → String.ltb s1 s2 = true.
Proof.
  unfold String.leb, String.ltb. intros Hle Hne.
  destruct (String.compare s1 s2) eqn:E; try done.
  by apply String.compare_eq_iff in E.
Qed.

Lemma StronglySorted_strict {A B : Type} (R : relation A) (f : A → B)
    (l : list A) :
  StronglySorted R l → NoDup (f <$> l) →
  StronglySorted (fun x y => R x y ∧ f x ≠ f y) l.
Proof.
  induction 1 as [|x l Hl IH Hx]; intros Hnd; constructor.
  - apply IH. rewrite fmap_cons in Hnd. by apply NoDup_cons_1_2 in Hnd.
  - rewrite fmap_cons in Hnd. apply NoDup_cons_1_1 in Hnd.
    rewrite Forall_forall in Hx. apply Forall_forall. intros y Hy.
    split; [by apply Hx|]. intros Heq. apply Hnd. rewrite Heq.
    by apply list_elem_of_fmap_2.
Qed.

Lemma StronglySorted_weaken {A : Type} (R1 R2 : relation A) (l : list A) :
  (∀ x y, R1 x y → R2 x y) → StronglySorted R1 l → StronglySorted R2 l.
Proof.
  intros HR. induction 1 as [|x l Hl IH Hx]; constructor; [exact IH|].
  eapply Forall_impl; [exact Hx|]. intros y. apply HR.
Qed.

Lemma entries_lookup (b : bolt.Bucket) (k v : string) :
  (k, v) ∈ bolt.entries b ↔ b !! k = Some v.
Proof. by rewrite entries_Permutation, elem_of_map_to_list. Qed.

Lemma entries_strict (b : bolt.Bucket) :
  StronglySorted (fun e1 e2 => String.ltb (fst e1) (fst e2) = true)
                 (bolt.entries b).
Proof.
  pose proof (StronglySorted_strict bolt.key_le fst (bolt.entries b)
                (entries_sorted b)) as H.
  eapply StronglySorted_weaken; [|apply H].
  - intros e1 e2 [Hle Hne]. by apply ltb_leb_ne.
  - rewrite entries_Permutation. apply NoDup_fst_map_to_list.
Qed.

Lemma items_lookup (b : bolt.Bucket) (p : pageItem) :
  p ∈ toItem <$> bolt.entries b ↔ b !! Name p = Some (Config p).
Proof.
  rewrite list_elem_of_fmap. split.
  - intros ([k v] & -> & He). by apply entries_lookup.
  - intros Hp. exists (Name p, Config p). split; [by destruct p|].
    by apply entries_lookup.
Qed.

Lemma listed_inj (pages1 pages2 : list pageItem) :
  listed pages1 = listed pages2 → pages1 = pages2.
Proof. unfold listed. by intros [= ->]. Qed.

(** X7: on every database that has the bucket, [list()] succeeds; its
    [total] is the number of entries of the bucket, an item is listed
    exactly when the bucket has its document under its name, and the items
    are in the strict order of the bytes of their names, so that no name
    is listed twice. *)
Theorem list_complete (db : bolt.DB) (b : bolt.Bucket) :
  db !! defaultBucket = Some b →
  ∃ pages,
    listConfig db
    = RespJSON StatusOK
        {| Status := 0; Msg := EmptyString;
           Data := Some {| items := pages; total := Z.of_nat (size b) |} |}
    ∧ (∀ k v, {| Name := k; Config := v |} ∈ pages ↔ b !! k = Some v)
    ∧ StronglySorted name_lt pages.
Proof.
  intros Hb. exists (toItem <$> bolt.entries b).
  rewrite (listConfig_entries _ _ Hb). unfold listed.
  rewrite length_fmap, (Permutation_length (entries_Permutation b)),
    length_map_to_list.
  split; [reflexivity|]. split.
  - intros k v. apply (items_lookup b {| Name := k; Config := v |}).
  - apply (StronglySorted_fmap toItem
             (fun e1 e2 => String.ltb (fst e1) (fst e2) = true) name_lt);
      [intros x y Hxy; exact Hxy|apply entries_strict].
Qed.

Lemma list_complete_witness :
  ∃ pages,
    listConfig homeStore
    = RespJSON StatusOK
        {| Status := 0; Msg := EmptyString;
           Data := Some {| items := pages;
                           total := Z.of_nat
                                      (size ({[ "home" := "{}" ]}
                                             : gmap string string)) |} |}
    ∧ (∀ k v, {| Name := k; Config := v |} ∈ pages
              ↔ ({[ "home" := "{}" ]} : gmap string string) !! k = Some v)
    ∧ StronglySorted name_lt pages.
Proof.
  apply (list_complete homeStore {[ "home" := "{}" ]}). reflexivity.
Defined.

(** X8: [list()] and [get] agree: on a database that has the bucket, an
    item that is listed with a name and a document that are not empty is
    what [get] of its name returns. *)
Theorem listed_item_is_served (db : bolt.DB) (b : bolt.Bucket)
    (pages : list pageItem) (p : pageItem) :
  db !! defaultBucket = Some b →
  listConfig db = listed pages → p ∈ pages →
  Name p ≠ EmptyString → Config p ≠ EmptyString →
  getConfig db (Name p) = served (Config p).
Proof.
  intros Hb Hl Hp Hn Hd.
  rewrite (listConfig_entries _ _ Hb) in Hl. apply listed_inj in Hl. subst pages.
  apply items_lookup in Hp.
  rewrite (getConfig_observed _ _ _ Hb Hn). unfold observed.
  by rewrite Hp, (len_nonzero _ Hd).
Qed.

Lemma listed_item_is_served_witness :
  getConfig homeStore "home" = served "{}".
Proof.
  apply (listed_item_is_served homeStore {[ "home" := "{}" ]}
           [ {| Name := "home"; Config := "{}" |} ]
           {| Name := "home"; Config := "{}" |}).
  - reflexivity.
  - vm_compute. reflexivity.
  - apply list_elem_of_here.
  - discriminate.
  - discriminate.
Defined.

Lemma StronglySorted_filter {A : Type} (R : relation A) (P : A → Prop)
    `{!∀ x, Decision (P x)} (l : list A) :
  StronglySorted R l → StronglySorted R (filter P l).
Proof.
  intros Hs. induction Hs as [|x l Hl IH Hx]; [constructor|].
  rewrite filter_cons. destruct (decide (P x)); [|exact IH].
  constructor; [exact IH|].
  rewrite Forall_forall in Hx. apply Forall_forall.
  intros y Hy. apply list_elem_of_filter in Hy as [_ Hy]. by apply Hx.
Qed.

Lemma entries_delete (b : bolt.Bucket) (n : string) :
  bolt.entries (delete n b) = filter (fun e => fst e ≠ n) (bolt.entries b).
Proof.
  apply (StronglySorted_unique_strong bolt.key_le).
  - intros [k1 v1] [k2 v2] H1 H2 Hle Hge.
    apply entries_lookup in H1. apply list_elem_of_filter in H2 as [_ H2].
    apply entries_lookup in H2. apply lookup_delete_Some in H1 as [_ H1].
    assert (k1 = k2) as -> by (by apply String.leb_antisym).
    congruence.
  - apply entries_sorted.
  - apply StronglySorted_filter, entries_sorted.
  - apply NoDup_Permutation.
    + rewrite entries_Permutation. apply NoDup_map_to_list.
    + apply NoDup_filter. rewrite entries_Permutation. apply NoDup_map_to_list.
    + intros [k v]. rewrite list_elem_of_filter, !entries_lookup,
        lookup_delete_Some. simpl.
      split; intros [H1 H2]; (split; [congruence|exact H2]).
Qed.

Lemma fmap_filter_toItem (n : string) (l : list (string * string)) :
  toItem <$> filter (fun e => fst e ≠ n) l
  = filter (fun p => Name p ≠ n) (toItem <$> l).
Proof.
  induction l as [|e l IH]; [reflexivity|].
  rewrite fmap_cons, !filter_cons. simpl.
  destruct (decide (fst e ≠ n)); [rewrite fmap_cons|]; by rewrite IH.
Qed.

(** X9: on a database that has the bucket, the list after the delete of
    a name that is not empty is the list before it without the item of
    that name, the other items in the same order. *)
Theorem list_after_delete (db : bolt.DB) (b : bolt.Bucket) (n : string)
    (pages : list pageItem) :
  db !! defaultBucket = Some b → n ≠ EmptyString →
  listConfig db = listed pages →
  listConfig (fst (deleteConfig db n))
  = listed (filter (fun p => Name p ≠ n) pages).
Proof.
  intros Hb Hn Hl.
  rewrite (listConfig_entries _ _ Hb) in Hl. apply listed_inj in Hl. subst pages.
  rewrite (deleteConfig_bucket _ _ _ Hb Hn). simpl.
  rewrite (listConfig_entries _ (delete n b)) by apply lookup_insert_eq.
  by rewrite entries_delete, fmap_filter_toItem.
Qed.

Lemma list_after_delete_witness :
  listConfig (fst (deleteConfig homeStore "home"))
  = listed (filter (fun p => Name p ≠ "home")
                   [ {| Name := "home"; Config := "{}" |} ]).
Proof.
  apply (list_after_delete homeStore {[ "home" := "{}" ]} "home").
  - reflexivity.
  - discriminate.
  - vm_compute. reflexivity.
Defined.

Lemma page404Data_nonempty : page404Data ≠ EmptyString.
Proof. intros H. apply (f_equal len) in H. vm_compute in H. discriminate. Qed.

(** X10: on a database that has the bucket, [get] of a name that is not
    empty always returns a document with status 200, and never an empty
    one: it is the stored document when the name has one that is not
    empty, and the fallback document when the name has no entry or an
    empty one. *)
Theorem get_serves_nonempty (db : bolt.DB) (b : bolt.Bucket) (name : string) :
  db !! defaultBucket = Some b → name ≠ EmptyString →
  ∃ d, getConfig db name = RespData 200 "application/json" d
       ∧ d ≠ EmptyString
       ∧ (∀ stored, b !! name = Some stored → stored ≠ EmptyString →
                    d = stored)
       ∧ (b !! name = Some EmptyString → d = page404Data)
       ∧ (b !! name = None → d = page404Data).
Proof.
  intros Hb Hn. rewrite (getConfig_observed _ _ _ Hb Hn).
  exists (observed b name). split; [reflexivity|]. unfold observed.
  destruct (b !! name) as [s|].
  - destruct (len s =? 0) eqn:E.
    + apply len_zero in E. subst s.
      split; [apply page404Data_nonempty|]. split; [|split].
      * intros stored [= <-] Hne. by destruct Hne.
      * reflexivity.
      * discriminate.
    + assert (s ≠ EmptyString) as Hs by (intros ->; discriminate).
      split; [exact Hs|]. split; [|split].
      * by intros stored [= <-] _.
      * intros [= ->]. by destruct Hs.
      * discriminate.
  - split; [apply page404Data_nonempty|]. split; [|split].
    + discriminate.
    + discriminate.
    + reflexivity.
Qed.

Lemma get_serves_nonempty_witness :
  getConfig homeStore "home" = RespData 200 "application/json" "{}"
  ∧ getConfig homeStore "about"
    = RespData 200 "application/json" page404Data.
Proof.
  split.
  - destruct (get_serves_nonempty homeStore {[ "home" := "{}" ]} "home")
      as (d & Hget & _ & Hstored & _); [reflexivity|discriminate|].
    rewrite Hget. f_equal. apply (Hstored "{}"); [reflexivity|discriminate].
  - destruct (get_serves_nonempty homeStore {[ "home" := "{}" ]} "about")
      as (d & Hget & _ & _ & _ & Hnone); [reflexivity|discriminate|].
    rewrite Hget. f_equal. apply Hnone. reflexivity.
Defined.

(** ** The seed loader, again *)

(** X11: the seed loader is the write, in the order of the walk, of the
    seed pairs of the bundle into the bucket of the pages, which is made
    when the file has none: every other visit (a directory, a file whose
    name does not end in [.json], a file whose read fails) and every pair
    the bucket refuses changes nothing, and the walk is never stopped. *)
Theorem seed_loader_refines (systemStatic : list fs.DirEntry) (db : bolt.DB) :
  initBoltDB systemStatic db
  = <[defaultBucket := foldl upsert (pageBucket db) (seeds systemStatic)]> db
  ∧ ∀ bucket, snd (fs.WalkDir systemStatic initBoltDB_walk bucket) = None.
Proof.
  split; [apply initBoltDB_seeds|].
  intros bucket. by rewrite WalkDir_seeds.
Qed.

Lemma upsert_union (m b : bolt.Bucket) (e : string * string) :
  upsert (m ∪ b) e = upsert m e ∪ b.
Proof.
  destruct (upsert_cases e) as [[_ H]|[_ H]]; rewrite !H; [|reflexivity].
  apply insert_union_l.
Qed.

Lemma fold_upsert_union (l : list (string * string)) (b : bolt.Bucket) :
  foldl upsert b l = foldl upsert ∅ l ∪ b.
Proof.
  induction l as [|e l IH] using rev_ind.
  - simpl. by rewrite (left_id_L ∅ (∪)).
  - by rewrite !foldl_snoc, IH, upsert_union.
Qed.

Lemma fold_upsert_idemp (l : list (string * string)) (b : bolt.Bucket) :
  foldl upsert (foldl upsert b l) l = foldl upsert b l.
Proof.
  rewrite (fold_upsert_union l (foldl upsert b l)), (fold_upsert_union l b).
  by rewrite (assoc_L (∪)), (idemp_L (∪)).
Qed.

(** X12: a restart on the same bundle changes nothing: the seed loading
    run on the database a seed loading of the same bundle left gives that
    database again. *)
Theorem seed_idempotent (systemStatic : list fs.DirEntry) (db : bolt.DB) :
  initBoltDB systemStatic (initBoltDB systemStatic db)
  = initBoltDB systemStatic db.
Proof.
  rewrite (initBoltDB_seeds systemStatic (initBoltDB systemStatic db)).
  rewrite pageBucket_initBoltDB, fold_upsert_idemp.
  rewrite (initBoltDB_seeds systemStatic db). apply insert_insert_eq.
Qed.

Lemma hasSeparator_app (s1 s2 : string) :
  hasSeparator (s1 +:+ s2) = hasSeparator s1 || hasSeparator s2.
Proof.
  induction s1 as [|c s1 IH]; [reflexivity|].
  change (filepath.IsPathSeparator c || hasSeparator (s1 +:+ s2)
          = (filepath.IsPathSeparator c || hasSeparator s1) || hasSeparator s2).
  by rewrite IH, orb_assoc.
Qed.

Lemma splitScan_spec (s : string) :
  ∃ p, s = p +:+ snd (filepath.splitScan s)
       ∧ hasSeparator (snd (filepath.splitScan s)) = false
       ∧ (fst (filepath.splitScan s) = true → ∃ p', p = p' +:+ "/")
       ∧ (fst (filepath.splitScan s) = false → p = EmptyString).
Proof.
  induction s as [|c rest IH].
  - exists EmptyString. split; [reflexivity|]. split; [reflexivity|].
    split; [discriminate|reflexivity].
  - simpl. destruct (filepath.splitScan rest) as [found file].
    simpl in IH. destruct IH as (p & Hrest & Hfile & Htrue & Hfalse).
    destruct found; simpl.
    + exists (String c p). split; [by rewrite Hrest at 1|].
      split; [exact Hfile|]. split; [|discriminate].
      intros _. destruct (Htrue eq_refl) as [p' ->]. by exists (String c p').
    + specialize (Hfalse eq_refl). subst p.
      change (rest = file) in Hrest. subst file.
      destruct (filepath.IsPathSeparator c) eqn:Ec; simpl.
      * apply Ascii.eqb_eq in Ec. subst c.
        exists "/". split; [reflexivity|]. split; [exact Hfile|].
        split; [|discriminate]. intros _. by exists EmptyString.
      * exists EmptyString. split; [reflexivity|].
        split; [by rewrite Ec, Hfile|]. split; [discriminate|reflexivity].
Qed.

(** [filepath.Split] cuts a path after its last separator. *)
Lemma Split_spec (path : string) :
  path = fst (filepath.Split path) +:+ snd (filepath.Split path)
  ∧ hasSeparator (snd (filepath.Split path)) = false
  ∧ (fst (filepath.Split path) = EmptyString
     ∨ ∃ p', fst (filepath.Split path) = p' +:+ "/").
Proof.
  unfold filepath.Split. simpl.
  destruct (splitScan_spec path) as (p & Hp & Hfile & Htrue & Hfalse).
  set (file := snd (filepath.splitScan path)) in *.
  assert (substring 0 (String.length path - String.length file) path = p)
    as ->.
  { rewrite Hp at 1 2. rewrite length_app.
    replace (String.length p + String.length file - String.length file)%nat
      with (String.length p) by lia.
    apply substring_app_l. }
  split; [exact Hp|]. split; [exact Hfile|].
  destruct (fst (filepath.splitScan path)); [right|left]; auto.
Qed.

(** X14: the key of a seeded page is the last element of the path of its
    file without the suffix [.json].  When a visit puts a value under a
    key the bucket did not have, the visit is a file with these bytes,
    the key holds no path separator, and the path of the file is a
    directory part, empty or closed by a separator, then the key, then
    [.json]. *)
Theorem seeded_key_of_path (d : fs.DirEntry) (bucket : bolt.Bucket)
    (k v : string) :
  bucket !! k = None →
  fst (initBoltDB_walk d bucket) !! k = Some v →
  fs.isDir d = false ∧ fs.contents d = Some v
  ∧ hasSeparator k = false
  ∧ ∃ directory,
      fs.path d = directory +:+ k +:+ ".json"
      ∧ (directory = EmptyString ∨ ∃ p', directory = p' +:+ "/").
Proof.
  intros Hk. rewrite walk_seedPair. simpl.
  destruct (seedPair d) as [[n data]|] eqn:Hd; [|congruence].
  intros Hv.
  destruct (upsert_cases (n, data)) as [[_ H]|[_ H]]; rewrite H in Hv;
    [|congruence].
  simpl in Hv. destruct (decide (n = k)) as [->|Hne];
    [|rewrite lookup_insert_ne in Hv by done; congruence].
  rewrite lookup_insert_eq in Hv. injection Hv as ->.
  apply seedPair_Some in Hd as (Hdir & Hname & Hdata).
  destruct (Split_spec (fs.path d)) as (Hpath & Hsep & Hdirpart).
  fold (filename d) in Hpath, Hsep. rewrite Hname in Hpath, Hsep.
  rewrite hasSeparator_app in Hsep. apply orb_false_iff in Hsep as [Hsep _].
  repeat split; try assumption.
  by exists (fst (filepath.Split (fs.path d))).
Qed.

Lemma seeded_key_of_path_witness :
  fs.isDir (file "static/a/home.json" "[1]") = false
  ∧ fs.contents (file "static/a/home.json" "[1]") = Some "[1]"
  ∧ hasSeparator "home" = false
  ∧ ∃ directory,
      fs.path (file "static/a/home.json" "[1]")
      = directory +:+ "home" +:+ ".json"
      ∧ (directory = EmptyString ∨ ∃ p', directory = p' +:+ "/").
Proof.
  apply (seeded_key_of_path (file "static/a/home.json" "[1]") ∅ "home" "[1]").
  - reflexivity.
  - vm_compute. reflexivity.
Defined.

(** X15: a page saved under a name that no bundled file has survives a
    restart.  On a database that has the bucket, after the save of a
    document that is not empty under a name the bucket takes, and then a
    seed loading of a bundle none of whose files is named by that name and
    [.json], [get] of the name returns the saved document. *)
Theorem saved_page_survives_restart (jsonValid : string → bool)
    (systemStatic : list fs.DirEntry) (db : bolt.DB) (b : bolt.Bucket)
    (n d : string) :
  db !! defaultBucket = Some b → storable n d → d ≠ EmptyString →
  (∀ f, f ∈ systemStatic → filename f ≠ n +:+ ".json") →
  getConfig
    (initBoltDB systemStatic (fst (saveConfig jsonValid db (request n d)))) n
  = served d.
Proof.
  intros Hb Hs Hd Hfiles.
  rewrite (saveConfig_storable jsonValid db b n d Hb Hs). simpl.
  rewrite (getConfig_observed _ _ _ (initBoltDB_bucket _ _)); [|apply Hs].
  unfold observed. rewrite pageBucket_initBoltDB, fold_upsert_frame.
  - unfold pageBucket. rewrite lookup_insert_eq. simpl.
    by rewrite lookup_insert_eq, (len_nonzero _ Hd).
  - intros Hin. apply list_elem_of_fmap in Hin as ([k v] & -> & Hkv).
    apply seeds_origin in Hkv as (f & Hf & _ & Hname & _).
    by apply (Hfiles f Hf).
Qed.

Lemma saved_page_survives_restart_witness :
  getConfig
    (initBoltDB pageAndTemplate
       (fst (saveConfig (fun _ => true) homeStore (request "about" "[]"))))
    "about"
  = served "[]".
Proof.
  apply (saved_page_survives_restart (fun _ => true) pageAndTemplate homeStore
           {[ "home" := "{}" ]} "about" "[]").
  - reflexivity.
  - repeat split; [discriminate|vm_compute; discriminate..].
  - discriminate.
  - intros f Hf.
    repeat (apply elem_of_cons in Hf as [->|Hf]; [vm_compute; discriminate|]).
    by apply elem_of_nil in Hf.
Defined.

(** ** The page and the server *)

(** X16: [renderPage] always names a page: the name it is given, or
    [404] for the empty name.  The template gets that name as title, the
    address [/config/get/] followed by the name, and as API a [GET] of that
    same address; and on a database that has the bucket, [get] of the name
    returns a document. *)
Theorem renderPage_names_a_page (db : bolt.DB) (b : bolt.Bucket)
    (name : string) :
  db !! defaultBucket = Some b →
  ∃ n,
    n ≠ EmptyString
    ∧ (name ≠ EmptyString → n = name)
    ∧ (name = EmptyString → n = "404")
    ∧ htmlCode (renderPage name) = 200
    ∧ htmlName (renderPage name) = "amis.tmpl"
    ∧ htmlObj (renderPage name) !! "pageTitle" = Some n
    ∧ htmlObj (renderPage name) !! "getConfigAddr"
      = Some ("/config/get/" +:+ n)
    ∧ htmlObj (renderPage name) !! "pageSchemaApi"
      = Some ("GET:" +:+ "/config/get/" +:+ n)
    ∧ ∃ d, getConfig db n = served d.
Proof.
  intros Hb. unfold renderPage.
  set (n := if String.eqb name EmptyString then "404" else name).
  assert (n ≠ EmptyString) as Hn.
  { unfold n. destruct (String.eqb_spec name EmptyString); [discriminate|done]. }
  exists n. split; [exact Hn|].
  split; [unfold n; intros H; by rewrite (eqb_empty_false _ H)|].
  split; [unfold n; by intros ->|].
  simpl. split; [reflexivity|]. split; [reflexivity|].
  split; [apply lookup_insert_eq|]. split; [|split].
  - rewrite lookup_insert_ne by discriminate.
    rewrite lookup_insert_ne by discriminate. apply lookup_singleton_eq.
  - rewrite lookup_insert_ne by discriminate. apply lookup_insert_eq.
  - exists (observed b n). by apply getConfig_observed.
Qed.

Lemma renderPage_names_a_page_witness :
  ∃ n,
    n ≠ EmptyString
    ∧ (EmptyString ≠ EmptyString → n = EmptyString)
    ∧ (EmptyString = EmptyString → n = "404")
    ∧ htmlCode (renderPage EmptyString) = 200
    ∧ htmlName (renderPage EmptyString) = "amis.tmpl"
    ∧ htmlObj (renderPage EmptyString) !! "pageTitle" = Some n
    ∧ htmlObj (renderPage EmptyString) !! "getConfigAddr"
      = Some ("/config/get/" +:+ n)
    ∧ htmlObj (renderPage EmptyString) !! "pageSchemaApi"
      = Some ("GET:" +:+ "/config/get/" +:+ n)
    ∧ ∃ d, getConfig homeStore n = served d.
Proof.
  apply (renderPage_names_a_page homeStore {[ "home" := "{}" ]} EmptyString).
  reflexivity.
Defined.

(** X17: on every database the server can have (the one the seed loading
    leaves, whatever the file held, and those saves and deletes make of
    it), no handler panics: the bucket of the pages is there. *)
Theorem handlers_never_panic (jsonValid : string → bool) (db : bolt.DB)
    (name : string) (decoded : string + pageItem) :
  reachable jsonValid db →
  is_Some (db !! defaultBucket)
  ∧ getConfig db name ≠ RespPanic
  ∧ listConfig db ≠ RespPanic
  ∧ snd (deleteConfig db name) ≠ RespPanic
  ∧ snd (saveConfig jsonValid db decoded) ≠ RespPanic.
Proof.
  intros Hr. pose proof (reachable_bucket jsonValid db Hr) as [b Hb].
  split; [by exists b|]. split; [|split; [|split]].
  - destruct (String.eqb_spec name EmptyString) as [->|Hn]; [discriminate|].
    by rewrite (getConfig_observed _ _ _ Hb Hn).
  - by rewrite (listConfig_entries _ _ Hb).
  - destruct (String.eqb_spec name EmptyString) as [->|Hn]; [discriminate|].
    by rewrite (deleteConfig_bucket _ _ _ Hb Hn).
  - destruct decoded as [msg|p]; [discriminate|].
    unfold saveConfig. rewrite ShouldBindJSON_pageItem.
    unfold bolt.Update, bolt.TxBucket. rewrite Hb. simpl.
    by destruct (bolt.Put b (Name p) (Config p)).
Qed.

Lemma handlers_never_panic_witness :
  is_Some (fst (deleteConfig (initBoltDB pageAndTemplate ∅) "index")
           !! defaultBucket)
  ∧ getConfig (fst (deleteConfig (initBoltDB pageAndTemplate ∅) "index"))
      "index" ≠ RespPanic
  ∧ listConfig (fst (deleteConfig (initBoltDB pageAndTemplate ∅) "index"))
    ≠ RespPanic
  ∧ snd (deleteConfig
           (fst (deleteConfig (initBoltDB pageAndTemplate ∅) "index"))
           "index") ≠ RespPanic
  ∧ snd (saveConfig (fun _ => true)
           (fst (deleteConfig (initBoltDB pageAndTemplate ∅) "index"))
           (request "index" "{}")) ≠ RespPanic.
Proof.
  apply (handlers_never_panic (fun _ => true)
           (fst (deleteConfig (initBoltDB pageAndTemplate ∅) "index"))
           "index" (request "index" "{}")).
  apply reachable_delete, reachable_init.
Defined.
